(** * archiver.py: the leaderboard archiver, embedded and verified

    The embedding follows the source file: the Python values the script
    manipulates, the exceptions of its [try]/[except] blocks, the outside
    world its calls reach, then [LeaderboardArchiver.__init__],
    [get_scores], [compress_and_save_archive], [archive_all_combinations]
    and [main]. The calls into the standard library that the statements
    depend on ([json.dumps], [str.encode]) are written out; the LZMA codec,
    the clock, the remote service, the event loop's completion order and the
    faults of the file system are given by an environment. [git_update],
    which the script runs after [main], is not part of the embedding. *)

From Stdlib Require Import ZArith NArith List String Ascii Lia Permutation.
From Stdlib Require Import DecimalString DecimalZ FinFun.
From stdpp Require Import base option list gmap.

Import ListNotations.
Local Open Scope Z_scope.

(** ** Python values *)

(** A Python [str] is a sequence of Unicode code points. *)
Abbreviation pystr := (list N).

(** A [bytes] object is a sequence of byte values. *)
Abbreviation pybytes := (list N).

(** A string literal of the source: every character of the literals used
    here is ASCII, so a character is its own code point. *)
Definition lit (s : string) : pystr :=
  map N_of_ascii (list_ascii_of_string s).

(** [str(n)] for an [int]: decimal digits, a leading minus sign for a
    negative number, ["0"] for zero. *)
Definition str_int (z : Z) : pystr :=
  lit (NilZero.string_of_int (Z.to_int z)).

(** [range(lo, hi)] *)
Definition range (lo hi : Z) : list Z :=
  map (fun i => lo + Z.of_nat i) (seq 0 (Z.to_nat (hi - lo))).

(** ** The parameter ranges of [archive_all_combinations] *)

Definition display_types : list Z := range 1 21.
Definition control_types : list Z := range 0 4.
Definition pb_types : list Z := range 1 4.

(** [[(dt, ct, pt) for dt in display_types for ct in control_types
      for pt in pb_types]] *)
Definition combinations : list (Z * Z * Z) :=
  flat_map (fun dt =>
    flat_map (fun ct =>
      map (fun pt => (dt, ct, pt)) pb_types) control_types) display_types.

Definition total_combinations : Z := Z.of_nat (length combinations).

(** The position of a descriptor in the comprehension's output. *)
Definition combination_index (d : Z * Z * Z) : nat :=
  let '(dt, ct, pt) := d in Z.to_nat ((dt - 1) * 12 + ct * 3 + (pt - 1)).

Definition in_parameter_space (d : Z * Z * Z) : Prop :=
  let '(dt, ct, pt) := d in 1 <= dt <= 20 /\ 0 <= ct <= 3 /\ 1 <= pt <= 3.

Definition descriptor_eq_dec (x y : Z * Z * Z) : {x = y} + {x <> y} :=
  decide (x = y).


(** ** Exceptions

    The script distinguishes three kinds of exception classes: [ValueError]
    (caught by name in [main]), every other class deriving from [Exception]
    (caught by the [except Exception] clauses), and the classes deriving from
    [BaseException] only, such as [KeyboardInterrupt] or
    [asyncio.CancelledError], which no clause of the script catches. *)
Inductive exn_class : Type :=
| ValueError
| OtherException
| BaseExceptionOnly.

(** An exception object: its class and [str(e)]. *)
Record exn : Type := Exn { exn_class_of : exn_class; exn_str : pystr }.

Definition is_Exception (e : exn) : bool :=
  match exn_class_of e with
  | ValueError | OtherException => true
  | BaseExceptionOnly => false
  end.

Definition is_ValueError (e : exn) : bool :=
  match exn_class_of e with
  | ValueError => true
  | _ => false
  end.

(** The outcome of evaluating an expression: a value or a raised exception. *)
Inductive result (A : Type) : Type :=
| Ok (a : A)
| Raise (e : exn).
Arguments Ok {A} a.
Arguments Raise {A} e.

(** ** The outside world *)

(** A request: the URL, the JSON body ([display_type], [control_type],
    [pb_type]) and the headers. *)
Record request : Type := Request {
  req_url : pystr;
  req_json : Z * Z * Z;
  req_headers : list (pystr * pystr)
}.

(** What the script reads of an HTTP response object: the status, the body
    ([await response.text()], which may raise) and the attribute
    [statusText], which the object may lack. *)
Record response : Type := Response {
  status : Z;
  text : result pystr;
  statusText : option pystr
}.

(** [obj.name] for an attribute that may be missing. *)
Definition getattr {A} (name : string) (v : option A) : result A :=
  match v with
  | Some a => Ok a
  | None =>
      Raise (Exn OtherException
               (lit "'ClientResponse' object has no attribute '"
                ++ lit name ++ lit "'"))
  end.

Inductive log_level : Type := INFO | ERROR.

(** A log message is the formatted text; the one line whose format
    specifications work on floating-point numbers keeps its two integer
    arguments instead. *)
Inductive log_msg : Type :=
| Text (s : pystr)
| CompressionStats (original_size compressed_size : Z).

(** What a run changes: files and directories, the log, and the requests
    sent so far. A request is listed when the task that sends it is run; the
    loop of [archive_all_combinations] runs each task when it takes its
    result, so that a run lists its requests in the order of completion.
    The event loop starts the tasks together and sends their requests in an
    order of its own: of the requests of a run, only which ones were sent
    is meant, not in which order. *)
Record world : Type := World {
  fs : gmap pystr pybytes;
  dirs : gset pystr;
  log : list (log_level * log_msg);
  requests : list request
}.

(** What a run is given: the process environment, the remote service, the
    order in which the event loop completes the requests, the clock, the
    platform's path separator, the LZMA codec and the faults of the file
    system. *)
Record environ : Type := Environ {
  getenv : pystr -> option pystr;
  post : request -> result response;
  as_completed : list (Z * Z * Z) -> list (Z * Z * Z);
  now_isoformat : pystr;
  now_strftime_Ymd : pystr;
  os_sep : pystr;
  lzma_compress : pybytes -> pybytes;
  lzma_decompress : pybytes -> option pybytes;
  makedirs_fault : option exn;
  lzma_write_fault : option (exn * option pybytes);
  getsize_fault : option exn
}.

(** ** Computations of the script: they read the environment, change the
    world, and return or raise. *)
Definition M (A : Type) : Type := environ -> world -> result A * world.

Definition ret {A} (a : A) : M A := fun _ w => (Ok a, w).

Definition raise {A} (e : exn) : M A := fun _ w => (Raise e, w).

Definition bind {A B} (m : M A) (k : A -> M B) : M B :=
  fun env w =>
    match m env w with
    | (Ok a, w') => k a env w'
    | (Raise e, w') => (Raise e, w')
    end.

Notation "x <- m ;; k" := (bind m (fun x => k))
  (at level 100, m at next level, right associativity).
Notation "m ;;; k" := (bind m (fun _ => k))
  (at level 100, right associativity).

(** An expression that may raise, evaluated as a statement. *)
Definition lift {A} (r : result A) : M A := fun _ w => (r, w).

(** [try: body / except ...]: [handler e] is the clause that matches [e],
    if any; an exception that no clause matches propagates. *)
Definition try_except {A} (body : M A) (handler : exn -> option (M A)) : M A :=
  fun env w =>
    match body env w with
    | (Ok a, w') => (Ok a, w')
    | (Raise e, w') =>
        match handler e with
        | Some h => h env w'
        | None => (Raise e, w')
        end
    end.

(** [except Exception as e: h] *)
Definition except_Exception {A} (h : exn -> M A) (e : exn) : option (M A) :=
  if is_Exception e then Some (h e) else None.

(** ** The effects the script uses *)

Definition logger_info (m : log_msg) : M unit :=
  fun _ w => (Ok tt, World (fs w) (dirs w) (log w ++ [(INFO, m)]) (requests w)).

Definition logger_error (m : log_msg) : M unit :=
  fun _ w => (Ok tt, World (fs w) (dirs w) (log w ++ [(ERROR, m)]) (requests w)).

(** [os.getenv(name)] *)
Definition os_getenv (name : pystr) : M (option pystr) :=
  fun env w => (Ok (getenv env name), w).

(** [session.post(url, json=payload, headers=headers)]: the request goes
    out, then the service answers or the transport raises. *)
Definition session_post (url : pystr) (payload : Z * Z * Z)
    (headers : list (pystr * pystr)) : M response :=
  fun env w =>
    let req := Request url payload headers in
    (post env req, World (fs w) (dirs w) (log w) (requests w ++ [req])).

(** [asyncio.as_completed(tasks)]: the tasks in the order in which the
    event loop completes them. *)
Definition asyncio_as_completed (tasks : list (Z * Z * Z))
    : M (list (Z * Z * Z)) :=
  fun env w => (Ok (as_completed env tasks), w).

(** [datetime.now().isoformat()] *)
Definition datetime_now_isoformat : M pystr :=
  fun env w => (Ok (now_isoformat env), w).

(** [datetime.now().strftime("%Y%m%d")] *)
Definition datetime_now_strftime_Ymd : M pystr :=
  fun env w => (Ok (now_strftime_Ymd env), w).

(** [os.makedirs(name, exist_ok=True)] *)
Definition os_makedirs (name : pystr) : M unit :=
  fun env w =>
    match makedirs_fault env with
    | Some e => (Raise e, w)
    | None => (Ok tt, World (fs w) ({[name]} ∪ dirs w) (log w) (requests w))
    end.

(** [os.path.join(a, b)] for a relative [b]. *)
Definition os_path_join (a b : pystr) : M pystr :=
  fun env w => (Ok (a ++ os_sep env ++ b), w).

(** [with lzma.open(path, 'wb', preset=9) as f: f.write(data)]: on success
    the file holds the compressed data; a fault raises and leaves the file
    absent or present with whatever had reached it. *)
Definition lzma_open_write (path : pystr) (data : pybytes) : M unit :=
  fun env w =>
    match lzma_write_fault env with
    | None =>
        (Ok tt, World (<[path := lzma_compress env data]> (fs w))
                  (dirs w) (log w) (requests w))
    | Some (e, None) => (Raise e, w)
    | Some (e, Some partial) =>
        (Raise e, World (<[path := partial]> (fs w))
                    (dirs w) (log w) (requests w))
    end.

(** [os.path.getsize(path)] *)
Definition os_path_getsize (path : pystr) : M Z :=
  fun env w =>
    match getsize_fault env with
    | Some e => (Raise e, w)
    | None =>
        match fs w !! path with
        | Some content => (Ok (Z.of_nat (length content)), w)
        | None =>
            (Raise (Exn OtherException
                      (lit "[Errno 2] No such file or directory: '"
                       ++ path ++ lit "'")), w)
        end
    end.

(** ** [LeaderboardArchiver.__init__] *)

Record LeaderboardArchiver : Type := {
  auth_token : pystr;
  dblink : pystr;
  base_url : pystr
}.

(** Truth value of what [os.getenv] returns: [None] and the empty string
    are false. *)
Definition truthy (v : option pystr) : bool :=
  match v with
  | None => false
  | Some [] => false
  | Some (_ :: _) => true
  end.

Definition missing_variables_message : pystr :=
  lit "Missing required environment variables: USER_TOKEN and DB_LINK".

Definition LeaderboardArchiver_init : M LeaderboardArchiver :=
  auth_token <- os_getenv (lit "USER_TOKEN") ;;
  dblink <- os_getenv (lit "DB_LINK") ;;
  if negb (truthy auth_token) || negb (truthy dblink) then
    raise (Exn ValueError missing_variables_message)
  else
    ret {| auth_token := default [] auth_token;
           dblink := default [] dblink;
           base_url := default [] dblink ++ lit "/api/getScores" |}.

(** ** [get_scores] *)

(** The dictionary [get_scores] returns: ["status"] and the three parameters
    are always present, ["data"] and ["message"] only in some of the
    shapes. *)
Record score_result : Type := ScoreResult {
  r_status : bool;
  r_data : option pystr;
  r_message : option pystr;
  r_display_type : Z;
  r_control_type : Z;
  r_pb_type : Z
}.

Definition get_scores (self : LeaderboardArchiver) (d : Z * Z * Z)
    : M score_result :=
  let '(display_type, control_type, pb_type) := d in
  try_except
    (let payload := (display_type, control_type, pb_type) in
     let headers := [(lit "Authorization", auth_token self);
                     (lit "Content-Type", lit "application/json")] in
     response <- session_post (base_url self) payload headers ;;
     if status response =? 200 then
       text_data <- lift (text response) ;;
       ret (ScoreResult true (Some text_data) None
              display_type control_type pb_type)
     else
       status_text <- lift (getattr "statusText" (statusText response)) ;;
       ret (ScoreResult false None
              (Some (lit "Error: $" ++ str_int (status response)
                     ++ lit " $" ++ status_text))
              display_type control_type pb_type))
    (except_Exception (fun e =>
       ret (ScoreResult false None
              (Some (lit "Request failed: " ++ exn_str e))
              display_type control_type pb_type))).

(** ** The aggregated document *)

(** A Python [dict] from [str] to values: the items in insertion order,
    every key once. *)
Abbreviation pydict V := (list (pystr * V)).

(** [d[k] = v]: a key already present keeps its place and takes the new
    value; a new key goes last. *)
Fixpoint dict_set {V} (k : pystr) (v : V) (d : pydict V) : pydict V :=
  match d with
  | [] => [(k, v)]
  | (k', v') :: rest =>
      if decide (k' = k) then (k, v) :: rest
      else (k', v') :: dict_set k v rest
  end.

(** [d.get(k)] *)
Fixpoint dict_get {V} (k : pystr) (d : pydict V) : option V :=
  match d with
  | [] => None
  | (k', v') :: rest => if decide (k' = k) then Some v' else dict_get k rest
  end.

(** [f"{display_type}_{control_type}_{pb_type}"] *)
Definition combination_key (d : Z * Z * Z) : pystr :=
  let '(display_type, control_type, pb_type) := d in
  str_int display_type ++ lit "_" ++ str_int control_type
    ++ lit "_" ++ str_int pb_type.

Definition result_descriptor (r : score_result) : Z * Z * Z :=
  (r_display_type r, r_control_type r, r_pb_type r).

(** [result["status"] and "data" in result] *)
Definition is_success (r : score_result) : bool :=
  r_status r && bool_decide (is_Some (r_data r)).

(** The state of the loop: [all_data], [successful_archives],
    [failed_archives]. *)
Definition loop_state : Type := pydict pystr * Z * Z.

(** The body of the loop, for one completed request. *)
Definition consume (st : loop_state) (result : score_result) : M loop_state :=
  let '(all_data, successful_archives, failed_archives) := st in
  st' <-
    match r_status result, r_data result with
    | true, Some data =>
        let key := combination_key (result_descriptor result) in
        ret (dict_set key data all_data,
             successful_archives + 1, failed_archives)
    | _, _ =>
        logger_error
          (Text (lit "Failed for "
                 ++ combination_key (result_descriptor result) ++ lit ": "
                 ++ default (lit "Unknown error") (r_message result))) ;;;
        ret (all_data, successful_archives, failed_archives + 1)
    end ;;
  let '(all_data, successful_archives, failed_archives) := st' in
  let current_progress := successful_archives + failed_archives in
  (if current_progress mod 20 =? 0 then
     logger_info (Text (lit "Progress: " ++ str_int current_progress
                        ++ lit "/" ++ str_int total_combinations))
   else ret tt) ;;;
  ret (all_data, successful_archives, failed_archives).

(** [for future in asyncio.as_completed(tasks): result = await future ...]
    over the requests in the order in which they complete. The results are
    consumed, and the lines logged, in that order; each task is run here
    when its result is taken (see [world] for what that means for
    [requests]). *)
Fixpoint as_completed_loop (self : LeaderboardArchiver)
    (order : list (Z * Z * Z)) (st : loop_state) : M loop_state :=
  match order with
  | [] => ret st
  | d :: rest =>
      result <- get_scores self d ;;
      st' <- consume st result ;;
      as_completed_loop self rest st'
  end.

(** ** [json.dumps] on the values the script serializes *)

(** The values of the archive: strings, and dictionaries with string keys. *)
#[warnings="-register-all"]
Inductive json : Type :=
| JString (s : pystr)
| JObject (members : list (pystr * json)).

(** One lowercase hexadecimal digit. *)
Definition hex_digit (n : N) : N :=
  (if n <? 10 then 48 + n else 87 + n)%N.

(** ['{0:04x}'.format(n)] for [n < 0x10000]. *)
Definition hex4 (n : N) : pystr :=
  [hex_digit (n / 4096 mod 16); hex_digit (n / 256 mod 16);
   hex_digit (n / 16 mod 16); hex_digit (n mod 16)]%N.

(** The replacement of one character in [encode_basestring_ascii]:
    printable ASCII other than the quote and the backslash stands for
    itself; the quote, the backslash and five control characters have
    two-character escapes; anything else is written [\uXXXX], as a surrogate
    pair above the basic plane. *)
Definition escape_char (c : N) : pystr :=
  (if c =? 34 then [92; 34]
   else if c =? 92 then [92; 92]
   else if (32 <=? c) && (c <=? 126) then [c]
   else if c =? 8 then [92; 98]
   else if c =? 12 then [92; 102]
   else if c =? 10 then [92; 110]
   else if c =? 13 then [92; 114]
   else if c =? 9 then [92; 116]
   else if c <? 65536 then 92 :: 117 :: hex4 c
   else
     let n := c - 65536 in
     let s1 := N.lor 55296 (N.land (N.shiftr n 10) 1023) in
     let s2 := N.lor 56320 (N.land n 1023) in
     (92 :: 117 :: hex4 s1) ++ (92 :: 117 :: hex4 s2))%N.

(** [encode_basestring_ascii(s)] *)
Definition encode_basestring_ascii (s : pystr) : pystr :=
  [34%N] ++ flat_map escape_char s ++ [34%N].

(** [json.dumps(v, separators=(',', ':'))]: no whitespace, the items of a
    dictionary in its own order. *)
Fixpoint json_dumps (v : json) : pystr :=
  match v with
  | JString s => encode_basestring_ascii s
  | JObject members =>
      let fix items (first : bool) (l : list (pystr * json)) : pystr :=
        match l with
        | [] => []
        | (key, value) :: rest =>
            (if first then [] else [44%N])
            ++ encode_basestring_ascii key ++ [58%N] ++ json_dumps value
            ++ items false rest
        end in
      [123%N] ++ items true members ++ [125%N]
  end.

(** The dictionary of strings [all_data] as a JSON value. *)
Definition json_of_dict (d : pydict pystr) : json :=
  JObject (map (fun kv => (fst kv, JString (snd kv))) d).

(** ** [str.encode('utf-8')]

    A surrogate raises [UnicodeEncodeError], a [ValueError]; its message is
    shortened here. *)

Definition is_surrogate (c : N) : bool := ((55296 <=? c) && (c <=? 57343))%N.

Definition utf8_char (c : N) : result pybytes :=
  (if c <? 128 then Ok [c]
   else if c <? 2048 then Ok [192 + c / 64; 128 + c mod 64]
   else if is_surrogate c then
     Raise (Exn ValueError
              (lit "'utf-8' codec can't encode character: surrogates not allowed"))
   else if c <? 65536 then
     Ok [224 + c / 4096; 128 + c / 64 mod 64; 128 + c mod 64]
   else
     Ok [240 + c / 262144; 128 + c / 4096 mod 64;
         128 + c / 64 mod 64; 128 + c mod 64])%N.

Fixpoint encode_utf8 (s : pystr) : result pybytes :=
  match s with
  | [] => Ok []
  | c :: rest =>
      match utf8_char c with
      | Raise e => Raise e
      | Ok bs =>
          match encode_utf8 rest with
          | Raise e => Raise e
          | Ok bs' => Ok (bs ++ bs')
          end
      end
  end.

(** ** [compress_and_save_archive] *)

(** [str(x)] for a path or [None]. *)
Definition str_optional (p : option pystr) : pystr :=
  default (lit "None") p.

Definition archive_document (timestamp : pystr) (all_data : pydict pystr)
    : json :=
  JObject [(lit "timestamp", JString timestamp);
           (lit "data", json_of_dict all_data)].

(** The argument of [f.write] is encoded once the file is open; the same
    text was encoded for [original_size] already, so that the second
    encoding raises nothing the first did not. *)
Definition compress_and_save_archive (self : LeaderboardArchiver)
    (all_data : pydict pystr) : M (option pystr) :=
  try_except
    (timestamp <- datetime_now_isoformat ;;
     let archive_data := archive_document timestamp all_data in
     let json_data := json_dumps archive_data in
     encoded <- lift (encode_utf8 json_data) ;;
     let original_size := Z.of_nat (length encoded) in
     os_makedirs (lit "archives") ;;;
     current_date <- datetime_now_strftime_Ymd ;;
     let archive_filename :=
       lit "leaderboard_" ++ current_date ++ lit ".lzma" in
     archive_path <- os_path_join (lit "archives") archive_filename ;;
     payload <- lift (encode_utf8 json_data) ;;
     lzma_open_write archive_path payload ;;;
     compressed_size <- os_path_getsize archive_path ;;
     (if original_size =? 0 then
        raise (Exn OtherException (lit "division by zero"))
      else ret tt) ;;;
     logger_info (Text (lit "LZMA archive saved: " ++ archive_path)) ;;;
     logger_info (CompressionStats original_size compressed_size) ;;;
     ret (Some archive_path))
    (except_Exception (fun e =>
       logger_error
         (Text (lit "Failed to compress archive: " ++ exn_str e)) ;;;
       ret None)).

(** ** [archive_all_combinations] and [main] *)

Definition archive_all_combinations (self : LeaderboardArchiver) : M unit :=
  logger_info (Text (lit "Starting archive of " ++ str_int total_combinations
                     ++ lit " combinations...")) ;;;
  order <- asyncio_as_completed combinations ;;
  st <- as_completed_loop self order ([], 0, 0) ;;
  let '(all_data, successful_archives, failed_archives) := st in
  (if successful_archives >? 0 then
     archive_path <- compress_and_save_archive self all_data ;;
     logger_info (Text (lit "Archive saved to: "
                        ++ str_optional archive_path))
   else
     logger_error (Text (lit "No successful archives to compress!"))) ;;;
  logger_info (Text (lit "Archive completed! Successful: "
                     ++ str_int successful_archives
                     ++ lit ", Failed: " ++ str_int failed_archives)).

Definition main : M unit :=
  try_except
    (archiver <- LeaderboardArchiver_init ;;
     archive_all_combinations archiver)
    (fun e =>
       if is_ValueError e then
         Some (logger_error
                 (Text (lit "Configuration error: " ++ exn_str e)))
       else if is_Exception e then
         Some (logger_error
                 (Text (lit "Unexpected error: " ++ exn_str e)))
       else None).

(** ** Reading an archive back

    The script only writes archives. The reading side of the round trip is
    the standard one: [lzma.open(path).read()], [bytes.decode('utf-8')],
    [json.loads]. *)

Definition is_continuation (b : N) : bool := ((128 <=? b) && (b <=? 191))%N.

(** [bytes.decode('utf-8')], strict. *)
Fixpoint decode_utf8 (bs : pybytes) : option pystr :=
  match bs with
  | [] => Some []
  | b0 :: rest =>
      if (b0 <? 128)%N then cons b0 <$> decode_utf8 rest
      else if ((194 <=? b0) && (b0 <=? 223))%N then
        match rest with
        | b1 :: rest1 =>
            if is_continuation b1 then
              cons ((b0 - 192) * 64 + (b1 - 128))%N <$> decode_utf8 rest1
            else None
        | _ => None
        end
      else if ((224 <=? b0) && (b0 <=? 239))%N then
        match rest with
        | b1 :: b2 :: rest2 =>
            let c := ((b0 - 224) * 4096 + (b1 - 128) * 64 + (b2 - 128))%N in
            if is_continuation b1 && is_continuation b2
               && (2048 <=? c)%N && negb (is_surrogate c) then
              cons c <$> decode_utf8 rest2
            else None
        | _ => None
        end
      else if ((240 <=? b0) && (b0 <=? 244))%N then
        match rest with
        | b1 :: b2 :: b3 :: rest3 =>
            let c := ((b0 - 240) * 262144 + (b1 - 128) * 4096
                      + (b2 - 128) * 64 + (b3 - 128))%N in
            if is_continuation b1 && is_continuation b2 && is_continuation b3
               && (65536 <=? c)%N && (c <=? 1114111)%N then
              cons c <$> decode_utf8 rest3
            else None
        | _ => None
        end
      else None
  end.

(** The value of one hexadecimal digit, of either case. *)
Definition hex_value (c : N) : option N :=
  (if (48 <=? c) && (c <=? 57) then Some (c - 48)
   else if (97 <=? c) && (c <=? 102) then Some (c - 87)
   else if (65 <=? c) && (c <=? 70) then Some (c - 55)
   else None)%N.

(** The four digits after [\u]. *)
Definition decode_uXXXX (h1 h2 h3 h4 : N) : option N :=
  match hex_value h1, hex_value h2, hex_value h3, hex_value h4 with
  | Some a, Some b, Some c, Some d => Some (a * 4096 + b * 256 + c * 16 + d)%N
  | _, _, _, _ => None
  end.

(** The one-character escapes of the decoder. *)
Definition backslash (esc : N) : option N :=
  (if esc =? 34 then Some 34
   else if esc =? 92 then Some 92
   else if esc =? 47 then Some 47
   else if esc =? 98 then Some 8
   else if esc =? 102 then Some 12
   else if esc =? 110 then Some 10
   else if esc =? 114 then Some 13
   else if esc =? 116 then Some 9
   else None)%N.

Definition is_high_surrogate (c : N) : bool :=
  ((55296 <=? c) && (c <=? 56319))%N.
Definition is_low_surrogate (c : N) : bool :=
  ((56320 <=? c) && (c <=? 57343))%N.

Definition append_char (c : N) (r : option (pystr * pystr))
    : option (pystr * pystr) :=
  match r with
  | Some (s, rest) => Some (c :: s, rest)
  | None => None
  end.

(** [scanstring], strict, started after the opening quote: the string and
    what follows its closing quote. A [\u] escape of a high surrogate
    followed by a [\u] escape of a low surrogate is one character. *)
Fixpoint scanstring (s : pystr) : option (pystr * pystr) :=
  match s with
  | [] => None
  | c :: rest =>
      if (c =? 34)%N then Some ([], rest)
      else if (c =? 92)%N then
        match rest with
        | [] => None
        | esc :: rest1 =>
            if (esc =? 117)%N then
              match rest1 with
              | h1 :: h2 :: h3 :: h4 :: rest2 =>
                  match decode_uXXXX h1 h2 h3 h4 with
                  | None => None
                  | Some uni =>
                      if is_high_surrogate uni then
                        match rest2 with
                        | b :: u :: rest3 =>
                            if ((b =? 92) && (u =? 117))%N then
                              match rest3 with
                              | g1 :: g2 :: g3 :: g4 :: rest4 =>
                                  match decode_uXXXX g1 g2 g3 g4 with
                                  | None => None
                                  | Some uni2 =>
                                      if is_low_surrogate uni2 then
                                        append_char
                                          (65536
                                           + N.lor
                                               (N.shiftl (uni - 55296) 10)
                                               (uni2 - 56320))%N
                                          (scanstring rest4)
                                      else append_char uni (scanstring rest2)
                                  end
                              | _ => None
                              end
                            else append_char uni (scanstring rest2)
                        | _ => append_char uni (scanstring rest2)
                        end
                      else append_char uni (scanstring rest2)
                  end
              | _ => None
              end
            else
              match backslash esc with
              | Some ch => append_char ch (scanstring rest1)
              | None => None
              end
        end
      else if (c <? 32)%N then None
      else append_char c (scanstring rest)
  end.

Definition is_whitespace (c : N) : bool :=
  ((c =? 32) || (c =? 9) || (c =? 10) || (c =? 13))%N.

Fixpoint skip_whitespace (s : pystr) : pystr :=
  match s with
  | c :: rest => if is_whitespace c then skip_whitespace rest else s
  | [] => []
  end.

(** [dict(pairs)] *)
Definition dict_of_pairs {V} (pairs : list (pystr * V)) : pydict V :=
  fold_left (fun d kv => dict_set (fst kv) (snd kv) d) pairs [].

(** The loop of [JSONObject], started after the opening quote of a key;
    [scan_once] parses the values. *)
Fixpoint JSONObject_loop (scan_once : pystr -> option (json * pystr))
    (fuel : nat) (s : pystr) (pairs : list (pystr * json))
    : option (json * pystr) :=
  match fuel with
  | O => None
  | S fuel' =>
      match scanstring s with
      | None => None
      | Some (key, s1) =>
          match skip_whitespace s1 with
          | c :: s2 =>
              if (c =? 58)%N then
                match scan_once (skip_whitespace s2) with
                | None => None
                | Some (value, s3) =>
                    let pairs := pairs ++ [(key, value)] in
                    match skip_whitespace s3 with
                    | c' :: s4 =>
                        if (c' =? 125)%N then
                          Some (JObject (dict_of_pairs pairs), s4)
                        else if (c' =? 44)%N then
                          match skip_whitespace s4 with
                          | q :: s5 =>
                              if (q =? 34)%N then
                                JSONObject_loop scan_once fuel' s5 pairs
                              else None
                          | [] => None
                          end
                        else None
                    | [] => None
                    end
                end
              else None
          | [] => None
          end
      end
  end.

(** [JSONObject], started after the opening brace. *)
Definition JSONObject (scan_once : pystr -> option (json * pystr))
    (fuel : nat) (s : pystr) : option (json * pystr) :=
  match skip_whitespace s with
  | c :: rest =>
      if (c =? 125)%N then Some (JObject [], rest)
      else if (c =? 34)%N then JSONObject_loop scan_once fuel rest []
      else None
  | [] => None
  end.

(** [scan_once] on strings and objects; arrays, numbers and the three
    literals are outside the values of an archive and yield [None] here. *)
Fixpoint scan_once (fuel : nat) (s : pystr) : option (json * pystr) :=
  match fuel with
  | O => None
  | S fuel' =>
      match s with
      | c :: rest =>
          if (c =? 34)%N then
            match scanstring rest with
            | Some (str, rest') => Some (JString str, rest')
            | None => None
            end
          else if (c =? 123)%N then JSONObject (scan_once fuel') fuel' rest
          else None
      | [] => None
      end
  end.

(** [json.loads(s)]: one value, then nothing but whitespace. Every call of
    the parser consumes a character, so the length of the text is fuel
    enough. *)
Definition json_loads (s : pystr) : option json :=
  match scan_once (S (length s)) (skip_whitespace s) with
  | Some (v, rest) =>
      match skip_whitespace rest with
      | [] => Some v
      | _ :: _ => None
      end
  | None => None
  end.

(** [json.loads(lzma.open(path).read().decode('utf-8'))] *)
Definition read_archive (env : environ) (w : world) (path : pystr)
    : option json :=
  content ← fs w !! path;
  raw ← lzma_decompress env content;
  s ← decode_utf8 raw;
  json_loads s.

(** A dictionary whose values are JSON strings, as a dictionary of
    strings. *)
Fixpoint strings_of (items : list (pystr * json)) : option (pydict pystr) :=
  match items with
  | [] => Some []
  | (key, JString s) :: rest => cons (key, s) <$> strings_of rest
  | (_, JObject _) :: _ => None
  end.

(** [document["data"]], a dictionary of strings. *)
Definition data_field (document : json) : option (pydict pystr) :=
  match document with
  | JObject members =>
      match dict_get (lit "data") members with
      | Some (JObject items) => strings_of items
      | _ => None
      end
  | JString _ => None
  end.

(** ** Vocabulary of the statements *)

(** *** Worlds *)

(** The world after more lines in the log. *)
Definition logged (w : world) (entries : list (log_level * log_msg)) : world :=
  World (fs w) (dirs w) (log w ++ entries) (requests w).

(** The world after more requests. *)
Definition requested (w : world) (reqs : list request) : world :=
  World (fs w) (dirs w) (log w) (requests w ++ reqs).

Definition initial_world : world := World ∅ ∅ [] [].

(** *** Requests and their results *)

(** An evaluation that raises nothing but classes deriving from
    [Exception]. *)
Definition raises_only_Exception {A} (r : result A) : Prop :=
  forall e, r = Raise e -> is_Exception e = true.

(** Whatever the transport raises, while sending a request or while reading
    the body of a response, is a connection error, a timeout, a protocol or
    decoding error: a class deriving from [Exception]. *)
Definition transport_level_failures (env : environ) : Prop :=
  forall req,
    raises_only_Exception (post env req) /\
    forall resp, post env req = Ok resp -> raises_only_Exception (text resp).

(** The request [get_scores] sends for a descriptor. *)
Definition request_of (self : LeaderboardArchiver) (d : Z * Z * Z) : request :=
  Request (base_url self) d
    [(lit "Authorization", auth_token self);
     (lit "Content-Type", lit "application/json")].

(** The two shapes of the dictionary [get_scores] returns. *)
Definition Success (d : Z * Z * Z) (raw_body : pystr) : score_result :=
  let '(dt, ct, pt) := d in ScoreResult true (Some raw_body) None dt ct pt.

Definition Failure (d : Z * Z * Z) (reason : pystr) : score_result :=
  let '(dt, ct, pt) := d in ScoreResult false None (Some reason) dt ct pt.

(** What [get_scores] computes, case by case. *)
Definition get_scores_outcome (env : environ) (self : LeaderboardArchiver)
    (d : Z * Z * Z) : result score_result :=
  let caught e :=
    if is_Exception e
    then Ok (Failure d (lit "Request failed: " ++ exn_str e))
    else Raise e in
  match post env (request_of self d) with
  | Raise e => caught e
  | Ok resp =>
      if status resp =? 200 then
        match text resp with
        | Ok body => Ok (Success d body)
        | Raise e => caught e
        end
      else
        match statusText resp with
        | Some st =>
            Ok (Failure d (lit "Error: $" ++ str_int (status resp)
                           ++ lit " $" ++ st))
        | None =>
            Ok (Failure d
                  (lit "Request failed: "
                   ++ lit "'ClientResponse' object has no attribute '"
                   ++ lit "statusText" ++ lit "'"))
        end
  end.

(** [r] is what [get_scores] returns for [d]. *)
Definition fetched (env : environ) (self : LeaderboardArchiver)
    (d : Z * Z * Z) (r : score_result) : Prop :=
  forall w, fst (get_scores self d env w) = Ok r.

(** *** The loop body as a function *)

(** What [consume] does to the loop variables. *)
Definition consume_state (st : loop_state) (result : score_result)
    : loop_state :=
  let '(all_data, successful_archives, failed_archives) := st in
  match r_status result, r_data result with
  | true, Some data =>
      (dict_set (combination_key (result_descriptor result)) data all_data,
       successful_archives + 1, failed_archives)
  | _, _ => (all_data, successful_archives, failed_archives + 1)
  end.

(** What [consume] logs. *)
Definition consume_log (st : loop_state) (result : score_result)
    : list (log_level * log_msg) :=
  let '(_, successful_archives, failed_archives) := st in
  (if is_success result then []
   else [(ERROR,
          Text (lit "Failed for "
                ++ combination_key (result_descriptor result) ++ lit ": "
                ++ default (lit "Unknown error") (r_message result)))])
  ++
  (if (successful_archives + failed_archives + 1) mod 20 =? 0 then
     [(INFO,
       Text (lit "Progress: "
             ++ str_int (successful_archives + failed_archives + 1)
             ++ lit "/" ++ str_int total_combinations))]
   else []).

(** The loop variables after a sequence of completed requests. *)
Definition aggregate (results : list score_result) : loop_state :=
  fold_left consume_state results ([], 0, 0).

(** [all_data] after a sequence of completed requests. *)
Definition aggregated_document (results : list score_result) : pydict pystr :=
  fst (fst (aggregate results)).

(** The item a successful result contributes to [all_data]. *)
Definition item_of (result : score_result) : pystr * pystr :=
  (combination_key (result_descriptor result), default [] (r_data result)).

(** *** Text and JSON values *)

(** A Unicode scalar value: a code point that is not a surrogate. Text
    decoded from bytes consists of scalar values. *)
Definition is_scalar_value (c : N) : bool :=
  ((c <? 1114112) && negb (is_surrogate c))%N.

Definition well_formed_text (s : pystr) : Prop :=
  Forall (fun c => is_scalar_value c = true) s.

Definition ascii_text (s : pystr) : Prop := Forall (fun c => (c < 128)%N) s.

(** A dictionary proper: every key once, keys and values well-formed
    text. *)
Definition well_formed_dict (d : pydict pystr) : Prop :=
  List.NoDup (map fst d) /\
  Forall (fun kv => well_formed_text (fst kv) /\ well_formed_text (snd kv)) d.

(** JSON values whose dictionaries are proper and whose strings are
    well-formed text. *)
Fixpoint well_formed_json (v : json) : Prop :=
  match v with
  | JString s => well_formed_text s
  | JObject members =>
      List.NoDup (map fst members) /\
      (fix all (l : list (pystr * json)) : Prop :=
         match l with
         | [] => True
         | (key, value) :: rest =>
             well_formed_text key /\ well_formed_json value /\ all rest
         end) members
  end.

(** The items of a dictionary as [json_dumps] writes them. *)
Fixpoint dumps_items (first : bool) (l : list (pystr * json)) : pystr :=
  match l with
  | [] => []
  | (key, value) :: rest =>
      (if first then [] else [44%N])
      ++ encode_basestring_ascii key ++ [58%N] ++ json_dumps value
      ++ dumps_items false rest
  end.

(** Fuel that is enough for the parser to read a value back. *)
Fixpoint json_size (v : json) : nat :=
  match v with
  | JString _ => 1%nat
  | JObject members =>
      S ((fix sum (l : list (pystr * json)) : nat :=
            match l with
            | [] => 0%nat
            | (_, value) :: rest => S (json_size value + sum rest)%nat
            end) members)
  end.

(** The sum in [json_size]. *)
Definition items_size (l : list (pystr * json)) : nat :=
  list_sum (map (fun kv => S (json_size (snd kv))) l).

(** *** The archive of a run *)

(** The text [compress_and_save_archive] serializes, and the path it writes
    to. *)
Definition archive_text (env : environ) (all_data : pydict pystr) : pystr :=
  json_dumps (archive_document (now_isoformat env) all_data).

Definition archive_path_of (env : environ) : pystr :=
  lit "archives" ++ os_sep env
    ++ (lit "leaderboard_" ++ now_strftime_Ymd env ++ lit ".lzma").

(** The first fault the file system or the codec raises while the archive is
    written, if any. *)
Definition first_fault (env : environ) : option exn :=
  match makedirs_fault env with
  | Some e => Some e
  | None =>
      match lzma_write_fault env with
      | Some (e, _) => Some e
      | None => getsize_fault env
      end
  end.

(** The log lines of [archive_all_combinations] and of
    [compress_and_save_archive]. *)
Definition starting_line : log_level * log_msg :=
  (INFO, Text (lit "Starting archive of " ++ str_int total_combinations
               ++ lit " combinations...")).

Definition no_success_line : log_level * log_msg :=
  (ERROR, Text (lit "No successful archives to compress!")).

Definition summary_line (successful failed : Z) : log_level * log_msg :=
  (INFO, Text (lit "Archive completed! Successful: " ++ str_int successful
               ++ lit ", Failed: " ++ str_int failed)).

Definition archive_saved_to_line (p : option pystr) : log_level * log_msg :=
  (INFO, Text (lit "Archive saved to: " ++ str_optional p)).

Definition write_failure_line (e : exn) : log_level * log_msg :=
  (ERROR, Text (lit "Failed to compress archive: " ++ exn_str e)).

(** ** Concrete inputs *)

Definition example_archiver : LeaderboardArchiver :=
  {| auth_token := lit "token";
     dblink := lit "https://db.example";
     base_url := lit "https://db.example/api/getScores" |}.

(** Both variables set. *)
Definition example_getenv (name : pystr) : option pystr :=
  if decide (name = lit "USER_TOKEN") then Some (lit "token")
  else if decide (name = lit "DB_LINK") then Some (lit "https://db.example")
  else None.

(** An environment made of a process environment, a remote service, a
    completion order and a fault of the archive write; the clock is fixed,
    the separator is the POSIX one, and a stand-in codec stores the data as
    it is. *)
Definition example_environ (g : pystr -> option pystr)
    (service : request -> result response)
    (order : list (Z * Z * Z) -> list (Z * Z * Z))
    (write_fault : option (exn * option pybytes)) : environ :=
  {| getenv := g;
     post := service;
     as_completed := order;
     now_isoformat := lit "2025-01-02T03:04:05.678901";
     now_strftime_Ymd := lit "20250102";
     os_sep := lit "/";
     lzma_compress := fun data => data;
     lzma_decompress := fun data => Some data;
     makedirs_fault := None;
     lzma_write_fault := write_fault;
     getsize_fault := None |}.

(** Requests complete in the order of submission, nothing fails on
    disk. *)
Definition environ_with_post (service : request -> result response)
    : environ :=
  example_environ example_getenv service (fun tasks => tasks) None.

(** Responses of an [aiohttp] session: the object has no [statusText]. *)
Definition response_200 : response := Response 200 (Ok (lit "[]")) None.
Definition response_201 : response := Response 201 (Ok (lit "[]")) None.
Definition response_500 : response := Response 500 (Ok (lit "oops")) None.

Definition connection_error : exn :=
  Exn OtherException (lit "Cannot connect to host").

(** A remote service that answers 200 for display type 1, 500 for display
    type 2, and cannot be reached for the other display types. *)
Definition example_service (req : request) : result response :=
  let '(display_type, _, _) := req_json req in
  if display_type =? 1 then Ok response_200
  else if display_type =? 2 then Ok response_500
  else Raise connection_error.

(** The service cannot be reached at all. *)
Definition environ_unreachable : environ :=
  environ_with_post (fun _ => Raise connection_error).

(** [USER_TOKEN] is not set; [USER_TOKEN] is set to the empty string. *)
Definition environ_without_token : environ :=
  example_environ
    (fun name => if decide (name = lit "USER_TOKEN") then None
                 else example_getenv name)
    (fun _ => Ok response_200) (fun tasks => tasks) None.

Definition environ_with_empty_token : environ :=
  example_environ
    (fun name => if decide (name = lit "USER_TOKEN") then Some []
                 else example_getenv name)
    (fun _ => Ok response_200) (fun tasks => tasks) None.

(** The disk is full: writing the archive raises [OSError] and leaves an
    empty file. *)
Definition disk_full : exn :=
  Exn OtherException (lit "[Errno 28] No space left on device").

Definition environ_disk_full : environ :=
  example_environ example_getenv (fun _ => Ok response_200)
    (fun tasks => tasks) (Some (disk_full, Some [])).

(** Two environments that differ in nothing but the order in which the
    requests complete: every request is answered 200 with the same body. *)
Definition environ_in_order : environ :=
  environ_with_post (fun _ => Ok response_200).

Definition environ_reversed : environ :=
  example_environ example_getenv (fun _ => Ok response_200)
    (fun tasks => rev tasks) None.

(** A run at another time of the clock. *)
Definition environ_later : environ :=
  {| getenv := example_getenv;
     post := example_service;
     as_completed := fun tasks => tasks;
     now_isoformat := lit "2025-01-03T00:00:00";
     now_strftime_Ymd := lit "20250103";
     os_sep := lit "/";
     lzma_compress := fun data => data;
     lzma_decompress := fun data => Some data;
     makedirs_fault := None;
     lzma_write_fault := None;
     getsize_fault := None |}.

(** ** [git_update] and the script *)

(** What [git_update] changes: the working directory of the process, and
    the commands run so far, each with the directory it ran in. *)
Record shell : Type := Shell {
  cwd : pystr;
  commands : list (pystr * list pystr)
}.

(** What [git_update] is given: whether [os.chdir] fails, and what running
    a command in a directory gives, a return code or an exception (the
    program cannot be started). *)
Record shell_environ : Type := ShellEnviron {
  chdir_fault : option exn;
  subprocess_outcome : pystr -> list pystr -> result Z
}.

Definition Sh (A : Type) : Type := shell_environ -> shell -> result A * shell.

Definition shell_bind {A B} (m : Sh A) (k : A -> Sh B) : Sh B :=
  fun senv sh =>
    match m senv sh with
    | (Ok a, sh') => k a senv sh'
    | (Raise e, sh') => (Raise e, sh')
    end.

(** [os.chdir(path)] *)
Definition os_chdir (path : pystr) : Sh unit :=
  fun senv sh =>
    match chdir_fault senv with
    | Some e => (Raise e, sh)
    | None => (Ok tt, Shell path (commands sh))
    end.

(** [subprocess.run(args)]: the command runs in the working directory; its
    return code is returned, not checked. *)
Definition subprocess_run (args : list pystr) : Sh Z :=
  fun senv sh =>
    (subprocess_outcome senv (cwd sh) args,
     Shell (cwd sh) (commands sh ++ [(cwd sh, args)])).

Definition repository_directory : pystr := lit "C:\coding\leaderboardArchiver".

Definition git_add : list pystr := [lit "git"; lit "add"; lit "."].
Definition git_commit : list pystr :=
  [lit "git"; lit "commit"; lit "-m"; lit "update"].
Definition git_push : list pystr :=
  [lit "git"; lit "push"; lit "-u"; lit "origin"; lit "main"].

Definition git_update : Sh unit :=
  shell_bind (os_chdir repository_directory) (fun _ =>
  shell_bind (subprocess_run git_add) (fun _ =>
  shell_bind (subprocess_run git_commit) (fun _ =>
  shell_bind (subprocess_run git_push) (fun _ =>
  fun _ sh => (Ok tt, sh))))).

(** [asyncio.run(main())], then [git_update()]. *)
Definition script (env : environ) (senv : shell_environ)
    (w : world) (sh : shell) : result unit * (world * shell) :=
  match main env w with
  | (Ok _, w') =>
      let '(r, sh') := git_update senv sh in (r, (w', sh'))
  | (Raise e, w') => (Raise e, (w', sh))
  end.

(** ** More vocabulary *)

(** The archiver [__init__] builds from the process environment. *)
Definition configured_archiver (env : environ) : LeaderboardArchiver :=
  {| auth_token := default [] (getenv env (lit "USER_TOKEN"));
     dblink := default [] (getenv env (lit "DB_LINK"));
     base_url := default [] (getenv env (lit "DB_LINK"))
                 ++ lit "/api/getScores" |}.

(** Both variables are set and not empty. *)
Definition configured (env : environ) : Prop :=
  truthy (getenv env (lit "USER_TOKEN"))
  && truthy (getenv env (lit "DB_LINK")) = true.

(** The faults of the file system and of the codec are [OSError],
    [LZMAError] and the like: classes deriving from [Exception]. *)
Definition io_level_failures (env : environ) : Prop :=
  forall e, first_fault env = Some e -> is_Exception e = true.

(** The lines the loop logs. *)
Definition failure_line (result : score_result) : log_level * log_msg :=
  (ERROR,
   Text (lit "Failed for "
         ++ combination_key (result_descriptor result) ++ lit ": "
         ++ default (lit "Unknown error") (r_message result))).

Definition progress_line (current_progress : Z) : log_level * log_msg :=
  (INFO,
   Text (lit "Progress: " ++ str_int current_progress
         ++ lit "/" ++ str_int total_combinations)).

Definition is_error_line (entry : log_level * log_msg) : bool :=
  match fst entry with
  | ERROR => true
  | INFO => false
  end.

Definition is_info_line (entry : log_level * log_msg) : bool :=
  negb (is_error_line entry).

(** What the loop logs over a sequence of results, from given loop
    variables. *)
Fixpoint loop_log (results : list score_result) (st : loop_state)
    : list (log_level * log_msg) :=
  match results with
  | [] => []
  | r :: rest => consume_log st r ++ loop_log rest (consume_state st r)
  end.

(** Printable ASCII: from the space to the tilde. *)
Definition printable_text (s : pystr) : Prop :=
  Forall (fun c => (32 <= c <= 126)%N) s.

(** The same key never has two values. *)
Definition functional_items {V} (items : list (pystr * V)) : Prop :=
  forall k v v', In (k, v) items -> In (k, v') items -> v = v'.

(** A shell in which every command can be started. *)
Definition example_shell_environ : shell_environ :=
  {| chdir_fault := None;
     subprocess_outcome := fun _ args =>
       if decide (args = git_commit) then Ok 1 else Ok 0 |}.

Definition initial_shell : shell := Shell (lit "C:\Users\me") [].

(** A second run on another day. *)
Definition environ_next_day : environ :=
  {| getenv := example_getenv;
     post := fun _ => Ok response_200;
     as_completed := fun tasks => tasks;
     now_isoformat := lit "2025-01-03T00:00:00";
     now_strftime_Ymd := lit "20250103";
     os_sep := lit "/";
     lzma_compress := fun data => data;
     lzma_decompress := fun data => Some data;
     makedirs_fault := None;
     lzma_write_fault := None;
     getsize_fault := None |}.

(** The lines of [main]. *)
Definition configuration_error_line (e : exn) : log_level * log_msg :=
  (ERROR, Text (lit "Configuration error: " ++ exn_str e)).

Definition unexpected_error_line (e : exn) : log_level * log_msg :=
  (ERROR, Text (lit "Unexpected error: " ++ exn_str e)).

(** The run is interrupted while the requests of display type 3 are on
    their way: [KeyboardInterrupt] derives from [BaseException] only. *)
Definition keyboard_interrupt : exn := Exn BaseExceptionOnly [].

Definition environ_interrupted : environ :=
  environ_with_post (fun req =>
    let '(display_type, _, _) := req_json req in
    if display_type =? 3 then Raise keyboard_interrupt else Ok response_200).
(** ** Facts about [range] and the comprehension *)

Section Ranges.

Lemma range_length lo hi : length (range lo hi) = Z.to_nat (hi - lo).
Proof. unfold range. now rewrite length_map, length_seq. Qed.

Lemma In_range lo hi x : In x (range lo hi) <-> lo <= x < hi.
Proof.
  unfold range. rewrite in_map_iff. split.
  - intros (i & <- & Hi). apply in_seq in Hi. lia.
  - intros Hx. exists (Z.to_nat (x - lo)). split; [lia|].
    apply in_seq. lia.
Qed.

Lemma NoDup_range lo hi : List.NoDup (range lo hi).
Proof.
  unfold range. apply Injective_map_NoDup.
  - intros i j Hij. lia.
  - apply seq_NoDup.
Qed.

Lemma In_combinations d : In d combinations <-> in_parameter_space d.
Proof.
  destruct d as [[dt ct] pt]. unfold combinations, in_parameter_space.
  rewrite in_flat_map. split.
  - intros (dt' & Hdt & H). apply in_flat_map in H as (ct' & Hct & H).
    apply in_map_iff in H as (pt' & Heq & Hpt).
    injection Heq as -> -> ->.
    apply In_range in Hdt, Hct, Hpt. lia.
  - intros (Hdt & Hct & Hpt). exists dt. split; [apply In_range; lia|].
    apply in_flat_map. exists ct. split; [apply In_range; lia|].
    apply in_map_iff. exists pt. split; [easy|apply In_range; lia].
Qed.

(** A descriptor in range is one of 240 explicit triples. *)
Lemma parameter_space_cases dt ct pt :
  in_parameter_space (dt, ct, pt) ->
  exists i j k : nat,
    (i < 20)%nat /\ (j < 4)%nat /\ (k < 3)%nat /\
    dt = 1 + Z.of_nat i /\ ct = Z.of_nat j /\ pt = 1 + Z.of_nat k.
Proof.
  intros (Hdt & Hct & Hpt).
  exists (Z.to_nat (dt - 1)), (Z.to_nat ct), (Z.to_nat (pt - 1)).
  repeat split; lia.
Qed.

Lemma combinations_lookup_nat (i j k : nat) :
  (i < 20)%nat -> (j < 4)%nat -> (k < 3)%nat ->
  nth_error combinations (i * 12 + j * 3 + k)
  = Some (1 + Z.of_nat i, Z.of_nat j, 1 + Z.of_nat k).
Proof.
  intros Hi Hj Hk.
  assert (Hall :
    forallb (fun i => forallb (fun j => forallb (fun k =>
      bool_decide (nth_error combinations (i * 12 + j * 3 + k)
                   = Some (1 + Z.of_nat i, Z.of_nat j, 1 + Z.of_nat k)))
      (seq 0 3)) (seq 0 4)) (seq 0 20) = true) by (vm_compute; reflexivity).
  assert (Hin : forall n m : nat, (n < m)%nat -> In n (seq 0 m))
    by (intros; apply in_seq; lia).
  pose proof (proj1 (forallb_forall _ _) Hall i (Hin _ _ Hi)) as Hi'.
  pose proof (proj1 (forallb_forall _ _) Hi' j (Hin _ _ Hj)) as Hj'.
  pose proof (proj1 (forallb_forall _ _) Hj' k (Hin _ _ Hk)) as Hk'.
  now apply bool_decide_eq_true in Hk'.
Qed.

Lemma combinations_index_of (i : nat) d :
  nth_error combinations i = Some d -> combination_index d = i.
Proof.
  intros Hi.
  assert (Hlt : (i < 240)%nat).
  { change 240%nat with (length combinations).
    apply nth_error_Some. congruence. }
  assert (Hall :
    forallb (fun i => match nth_error combinations i with
                      | Some d => Nat.eqb (combination_index d) i
                      | None => true
                      end) (seq 0 240) = true) by (vm_compute; reflexivity).
  rewrite forallb_forall in Hall.
  specialize (Hall i ltac:(apply in_seq; lia)).
  rewrite Hi in Hall. now apply Nat.eqb_eq.
Qed.


Lemma combinations_lookup d :
  in_parameter_space d ->
  nth_error combinations (combination_index d) = Some d.
Proof.
  destruct d as [[dt ct] pt]. intros Hd.
  destruct (parameter_space_cases _ _ _ Hd)
    as (i & j & k & Hi & Hj & Hk & -> & -> & ->).
  unfold combination_index.
  replace (Z.to_nat _) with (i * 12 + j * 3 + k)%nat by lia.
  now apply combinations_lookup_nat.
Qed.

Lemma combinations_NoDup : List.NoDup combinations.
Proof.
  apply NoDup_nth_error. intros i j Hi Hij.
  destruct (nth_error combinations i) as [d|] eqn:Hd.
  - rewrite <- (combinations_index_of i d Hd).
    apply combinations_index_of. congruence.
  - apply nth_error_None in Hd. lia.
Qed.

End Ranges.

(** C2. The comprehension of [archive_all_combinations] builds exactly 240
    descriptors, without repetition; a triple [(d, c, p)] occurs in it if and
    only if [1 <= d <= 20], [0 <= c <= 3] and [1 <= p <= 3], and then
    exactly once, at position [(d-1)*12 + c*3 + (p-1)]: display_type is the
    outer loop, control_type the middle one, pb_type the inner one. *)
Theorem combinations_enumeration :
  length combinations = 240%nat /\
  List.NoDup combinations /\
  (forall d, In d combinations <-> in_parameter_space d) /\
  (forall d, in_parameter_space d ->
     count_occ descriptor_eq_dec combinations d = 1%nat) /\
  (forall d, in_parameter_space d ->
     nth_error combinations (combination_index d) = Some d) /\
  (forall i d, nth_error combinations i = Some d -> combination_index d = i).
Proof.
  split; [reflexivity|].
  split; [exact combinations_NoDup|].
  split; [exact In_combinations|].
  split; [|split; [exact combinations_lookup|exact combinations_index_of]].
  intros d Hd. apply In_combinations in Hd.
  apply (NoDup_count_occ' descriptor_eq_dec); [exact combinations_NoDup|exact Hd].
Qed.

Lemma combinations_enumeration_witness :
  count_occ descriptor_eq_dec combinations (7, 2, 3) = 1%nat /\
  nth_error combinations (combination_index (7, 2, 3)) = Some (7, 2, 3).
Proof.
  split.
  - apply (proj1 (proj2 (proj2 (proj2 combinations_enumeration))) (7, 2, 3)).
    cbn. lia.
  - apply (proj1 (proj2 (proj2 (proj2 (proj2 combinations_enumeration))))
             (7, 2, 3)).
    cbn. lia.
Defined.

(** ** [get_scores] *)

Section Fetch.

Variable env : environ.
Variable self : LeaderboardArchiver.

Lemma get_scores_run d w :
  get_scores self d env w
  = (get_scores_outcome env self d, requested w [request_of self d]).
Proof.
  destruct d as [[dt ct] pt].
  unfold get_scores, get_scores_outcome, try_except, bind, session_post,
    request_of, requested, except_Exception, lift, ret.
  cbn [fs dirs log requests].
  destruct (post env _) as [resp|e]; cbn.
  - destruct (status resp =? 200).
    + destruct (text resp) as [body|e]; cbn; [reflexivity|].
      destruct (is_Exception e); reflexivity.
    + destruct (statusText resp) as [st|]; reflexivity.
  - destruct (is_Exception e); reflexivity.
Qed.

Lemma get_scores_outcome_descriptor d r :
  get_scores_outcome env self d = Ok r -> result_descriptor r = d.
Proof.
  destruct d as [[dt ct] pt]. unfold get_scores_outcome.
  repeat match goal with
         | |- context [match ?x with _ => _ end] => destruct x
         end; intros [= <-]; reflexivity.
Qed.

Lemma get_scores_outcome_total d :
  transport_level_failures env -> exists r, get_scores_outcome env self d = Ok r.
Proof.
  intros Ht. destruct (Ht (request_of self d)) as [Hpost Htext].
  unfold get_scores_outcome.
  destruct (post env _) as [resp|e] eqn:Hp.
  - destruct (status resp =? 200).
    + destruct (text resp) as [body|e] eqn:Hb; [eauto|].
      rewrite (Htext resp eq_refl e Hb). eauto.
    + destruct (statusText resp); eauto.
  - rewrite (Hpost e eq_refl). eauto.
Qed.

End Fetch.

(** C1 as stated fails on the code: 201 is a 2xx status, the body can be
    read, and [get_scores] returns a Failure dictionary, not the Success one;
    the message of that Failure is not "Error: 201" either. *)
Lemma get_scores_201_is_failure :
  200 <= status response_201 < 300 /\
  text response_201 = Ok (lit "[]") /\
  post (environ_with_post (fun _ => Ok response_201))
    (request_of example_archiver (1, 0, 1)) = Ok response_201 /\
  fst (get_scores example_archiver (1, 0, 1)
         (environ_with_post (fun _ => Ok response_201)) initial_world)
  = Ok (Failure (1, 0, 1)
          (lit "Request failed: 'ClientResponse' object has no attribute 'statusText'")) /\
  fst (get_scores example_archiver (1, 0, 1)
         (environ_with_post (fun _ => Ok response_201)) initial_world)
  <> Ok (Success (1, 0, 1) (lit "[]")) /\
  fst (get_scores example_archiver (1, 0, 1)
         (environ_with_post (fun _ => Ok response_201)) initial_world)
  <> Ok (Failure (1, 0, 1) (lit "Error: 201")).
Proof.
  rewrite get_scores_run. cbn [fst].
  repeat split; try reflexivity; try (cbn; lia); discriminate.
Qed.

(** C1, amended. For every response the service returns: when the status
    is exactly 200 and the body can be read, [get_scores] returns the
    Success dictionary, carrying the body text as it is and the three
    parameters; when the status is anything else, other 2xx codes included,
    it returns a Failure dictionary: status false, no data, a message, and
    the three parameters. *)
Theorem get_scores_classifies_response
    (env : environ) (self : LeaderboardArchiver) (d : Z * Z * Z) (w : world)
    (resp : response) :
  post env (request_of self d) = Ok resp ->
  (status resp = 200 ->
     forall body, text resp = Ok body ->
       fst (get_scores self d env w) = Ok (Success d body)) /\
  (status resp <> 200 ->
     exists reason, fst (get_scores self d env w) = Ok (Failure d reason)).
Proof.
  intros Hpost. rewrite get_scores_run. cbn [fst].
  unfold get_scores_outcome. rewrite Hpost. split.
  - intros -> body ->. reflexivity.
  - intros Hne. apply Z.eqb_neq in Hne. rewrite Hne.
    destruct (statusText resp); eauto.
Qed.

Lemma get_scores_classifies_response_witness :
  (status response_200 = 200 ->
     forall body, text response_200 = Ok body ->
       fst (get_scores example_archiver (1, 0, 1)
              (environ_with_post (fun _ => Ok response_200)) initial_world)
       = Ok (Success (1, 0, 1) body)) /\
  (status response_200 <> 200 ->
     exists reason,
       fst (get_scores example_archiver (1, 0, 1)
              (environ_with_post (fun _ => Ok response_200)) initial_world)
       = Ok (Failure (1, 0, 1) reason)).
Proof.
  apply (get_scores_classifies_response
           (environ_with_post (fun _ => Ok response_200))
           example_archiver (1, 0, 1) initial_world response_200).
  reflexivity.
Defined.

(** C7. Whatever the transport does, [get_scores] returns a dictionary for
    the descriptor it was called with and raises nothing; when sending the
    request raises, or reading the body of a 200 response raises, the
    dictionary is the Failure one and its message is "Request failed: "
    followed by the text of the exception. *)
Theorem get_scores_never_raises
    (env : environ) (self : LeaderboardArchiver) (d : Z * Z * Z) (w : world) :
  transport_level_failures env ->
  (exists r, fst (get_scores self d env w) = Ok r /\ result_descriptor r = d)
  /\
  (forall e, post env (request_of self d) = Raise e ->
     fst (get_scores self d env w)
     = Ok (Failure d (lit "Request failed: " ++ exn_str e))) /\
  (forall resp e, post env (request_of self d) = Ok resp ->
     status resp = 200 -> text resp = Raise e ->
     fst (get_scores self d env w)
     = Ok (Failure d (lit "Request failed: " ++ exn_str e))).
Proof.
  intros Ht. rewrite get_scores_run. cbn [fst].
  destruct (Ht (request_of self d)) as [Hpost Htext].
  split; [|split].
  - destruct (get_scores_outcome_total env self d Ht) as [r Hr].
    exists r. split; [exact Hr|].
    eapply get_scores_outcome_descriptor, Hr.
  - intros e He. unfold get_scores_outcome. rewrite He.
    now rewrite (Hpost e He).
  - intros resp e Hp Hs He. unfold get_scores_outcome. rewrite Hp, Hs, He.
    cbn. now rewrite (Htext resp Hp e He).
Qed.

Lemma get_scores_never_raises_witness :
  fst (get_scores example_archiver (7, 2, 3)
         (environ_with_post (fun _ => Raise connection_error)) initial_world)
  = Ok (Failure (7, 2, 3) (lit "Request failed: Cannot connect to host")).
Proof.
  assert (Ht : transport_level_failures
                 (environ_with_post (fun _ => Raise connection_error))).
  { intros req. split.
    - intros e' [= <-]. reflexivity.
    - intros resp [=]. }
  exact (proj1 (proj2 (get_scores_never_raises _ example_archiver (7, 2, 3)
                         initial_world Ht)) connection_error eq_refl).
Defined.

(** ** [__init__] and the configuration error *)

Lemma LeaderboardArchiver_init_run env w :
  LeaderboardArchiver_init env w =
  (if truthy (getenv env (lit "USER_TOKEN"))
      && truthy (getenv env (lit "DB_LINK"))
   then Ok {| auth_token := default [] (getenv env (lit "USER_TOKEN"));
              dblink := default [] (getenv env (lit "DB_LINK"));
              base_url := default [] (getenv env (lit "DB_LINK"))
                          ++ lit "/api/getScores" |}
   else Raise (Exn ValueError missing_variables_message), w).
Proof.
  unfold LeaderboardArchiver_init, bind, os_getenv, raise, ret.
  destruct (truthy (getenv env (lit "USER_TOKEN")));
    destruct (truthy (getenv env (lit "DB_LINK"))); reflexivity.
Qed.

(** When the constructor raises, [main] logs the configuration error and
    does nothing else. *)
Lemma main_configuration_error env w :
  truthy (getenv env (lit "USER_TOKEN"))
  && truthy (getenv env (lit "DB_LINK")) = false ->
  LeaderboardArchiver_init env w
  = (Raise (Exn ValueError missing_variables_message), w) /\
  main env w
  = (Ok tt, logged w [(ERROR, Text (lit "Configuration error: "
                                    ++ missing_variables_message))]).
Proof.
  intros Hf. split.
  - rewrite LeaderboardArchiver_init_run, Hf. reflexivity.
  - unfold main, try_except, bind.
    rewrite LeaderboardArchiver_init_run, Hf. reflexivity.
Qed.

(** C9. When [USER_TOKEN] or [DB_LINK] is not set, the constructor raises
    the [ValueError] for the missing variables; [main] then logs the
    configuration error and ends: no request has been sent, and nothing else
    in the world has changed. *)
Theorem missing_configuration_is_fatal (env : environ) (w : world) :
  getenv env (lit "USER_TOKEN") = None \/ getenv env (lit "DB_LINK") = None ->
  LeaderboardArchiver_init env w
  = (Raise (Exn ValueError missing_variables_message), w) /\
  main env w
  = (Ok tt, logged w [(ERROR, Text (lit "Configuration error: "
                                    ++ missing_variables_message))]) /\
  requests (snd (main env w)) = requests w /\
  fs (snd (main env w)) = fs w.
Proof.
  intros Habsent.
  assert (Hf : truthy (getenv env (lit "USER_TOKEN"))
               && truthy (getenv env (lit "DB_LINK")) = false).
  { destruct Habsent as [-> | ->]; cbn [truthy].
    - reflexivity.
    - apply andb_false_r. }
  destruct (main_configuration_error env w Hf) as [Hinit Hmain].
  rewrite Hmain. repeat split; assumption.
Qed.

Lemma missing_configuration_is_fatal_witness :
  requests (snd (main environ_without_token initial_world)) = [].
Proof.
  exact (proj1 (proj2 (proj2
    (missing_configuration_is_fatal environ_without_token initial_world
       (or_introl eq_refl))))).
Defined.

(** C10. A variable that is set to the empty string counts as missing: the
    constructor raises the same [ValueError] as for a variable that is not
    set, and it raises it exactly when one of the two values is absent or
    empty. *)
Theorem empty_configuration_is_missing (env : environ) (w : world) :
  (getenv env (lit "USER_TOKEN") = Some []
   \/ getenv env (lit "DB_LINK") = Some [] ->
   LeaderboardArchiver_init env w
   = (Raise (Exn ValueError missing_variables_message), w)) /\
  (fst (LeaderboardArchiver_init env w)
   = Raise (Exn ValueError missing_variables_message)
   <-> (getenv env (lit "USER_TOKEN") = None
        \/ getenv env (lit "USER_TOKEN") = Some []
        \/ getenv env (lit "DB_LINK") = None
        \/ getenv env (lit "DB_LINK") = Some [])).
Proof.
  rewrite LeaderboardArchiver_init_run. split.
  - intros [-> | ->]; cbn [truthy]; [reflexivity|].
    now rewrite andb_false_r.
  - cbn [fst].
    destruct (getenv env (lit "USER_TOKEN")) as [[|a ta]|];
      destruct (getenv env (lit "DB_LINK")) as [[|b tb]|]; cbn;
      split; intros H; try discriminate H; auto;
      repeat (destruct H as [H|H]; try discriminate H).
Qed.

Lemma empty_configuration_is_missing_witness :
  LeaderboardArchiver_init environ_with_empty_token initial_world
  = (Raise (Exn ValueError missing_variables_message), initial_world).
Proof.
  exact (proj1 (empty_configuration_is_missing environ_with_empty_token
                  initial_world) (or_introl eq_refl)).
Defined.

(** ** The keys of the aggregated document *)

Section Keys.

Lemma lit_inj s1 s2 : lit s1 = lit s2 -> s1 = s2.
Proof.
  unfold lit. revert s2.
  induction s1 as [|a s1 IH]; intros [|b s2]; cbn; intros H;
    try discriminate H; [reflexivity|].
  injection H as Hab Hrest. f_equal.
  - rewrite <- (ascii_N_embedding a), <- (ascii_N_embedding b). now f_equal.
  - now apply IH.
Qed.

Lemma to_int_proper z :
  Z.to_int z <> Decimal.Pos Decimal.Nil /\
  Z.to_int z <> Decimal.Neg Decimal.Nil.
Proof.
  destruct z as [|p|p]; cbn; split; try discriminate;
    intros [= H]; now apply (DecimalPos.Unsigned.to_uint_nonnil p).
Qed.

(** [str] of an integer determines the integer. *)
Lemma str_int_inj a b : str_int a = str_int b -> a = b.
Proof.
  unfold str_int. intros H. apply lit_inj in H.
  apply DecimalZ.to_int_inj.
  destruct (to_int_proper a) as [Ha1 Ha2].
  destruct (to_int_proper b) as [Hb1 Hb2].
  pose proof (NilZero.isi _ Ha1 Ha2) as Ea.
  pose proof (NilZero.isi _ Hb1 Hb2) as Eb.
  rewrite H in Ea. congruence.
Qed.

(** Digits and the minus sign: no underscore. *)
Lemma string_of_uint_no_underscore d :
  ~ In 95%N (lit (NilEmpty.string_of_uint d)).
Proof.
  induction d; cbn; intros H;
    repeat (destruct H as [H|H]; [discriminate H|]); auto.
Qed.

Lemma str_int_no_underscore z : ~ In 95%N (str_int z).
Proof.
  unfold str_int.
  assert (Hu : forall d, ~ In 95%N (lit (NilZero.string_of_uint d))).
  { intros d. destruct d; try apply string_of_uint_no_underscore.
    cbn. intros [H|[]]. discriminate H. }
  destruct (Z.to_int z) as [d|d]; cbn [NilZero.string_of_int].
  - apply Hu.
  - change (lit (String "-" (NilZero.string_of_uint d)))
      with (45%N :: lit (NilZero.string_of_uint d)).
    intros [H|H]; [discriminate H|]. now apply (Hu d).
Qed.

(** Two texts cut at their first underscore. *)
Lemma split_at_underscore (a a' r r' : pystr) :
  ~ In 95%N a -> ~ In 95%N a' ->
  a ++ 95%N :: r = a' ++ 95%N :: r' -> a = a' /\ r = r'.
Proof.
  revert a'. induction a as [|x a IH]; intros [|y a'] Ha Ha' H; cbn in H.
  - injection H as ->. auto.
  - injection H as <- _. exfalso. apply Ha'. now left.
  - injection H as -> _. exfalso. apply Ha. now left.
  - injection H as -> H.
    destruct (IH a') as [-> ->]; auto.
    + intros Hin. apply Ha. now right.
    + intros Hin. apply Ha'. now right.
Qed.

(** No two descriptors have the same key. *)
Lemma combination_key_inj d1 d2 :
  combination_key d1 = combination_key d2 -> d1 = d2.
Proof.
  destruct d1 as [[a b] c], d2 as [[a' b'] c'].
  unfold combination_key.
  change (lit "_") with [95%N]. cbn [app].
  intros H.
  apply split_at_underscore in H as [Ha H];
    try apply str_int_no_underscore.
  apply split_at_underscore in H as [Hb Hc];
    try apply str_int_no_underscore.
  apply str_int_inj in Ha, Hb, Hc. congruence.
Qed.

End Keys.

(** ** The aggregation loop *)

Section Loop.

Variable env : environ.
Variable self : LeaderboardArchiver.

Lemma is_success_cases r :
  is_success r = match r_status r, r_data r with
                 | true, Some _ => true
                 | _, _ => false
                 end.
Proof.
  unfold is_success. destruct (r_status r), (r_data r); reflexivity.
Qed.

Lemma consume_run st r w :
  consume st r env w = (Ok (consume_state st r), logged w (consume_log st r)).
Proof.
  destruct st as [[all_data s] f], w as [files folders entries sent].
  unfold consume, consume_state, consume_log.
  rewrite is_success_cases.
  unfold bind, ret, logger_error, logger_info, logged.
  destruct (r_status r), (r_data r) as [data|];
    cbn [fs dirs log requests app];
    try replace (s + 1 + f) with (s + f + 1) by lia;
    try replace (s + (f + 1)) with (s + f + 1) by lia;
    destruct ((s + f + 1) mod 20 =? 0);
    cbn [fs dirs log requests app];
    rewrite <- ?app_assoc, ?app_nil_r; reflexivity.
Qed.

(** The loop touches neither files nor directories, whether it ends or
    raises. *)
Lemma as_completed_loop_files order st w :
  fs (snd (as_completed_loop self order st env w)) = fs w /\
  dirs (snd (as_completed_loop self order st env w)) = dirs w.
Proof.
  revert st w. induction order as [|d order IH]; intros st w; cbn.
  - auto.
  - unfold bind. rewrite get_scores_run.
    destruct (get_scores_outcome env self d) as [r|e]; cbn; [|auto].
    rewrite consume_run.
    destruct (IH (consume_state st r)
                 (logged (requested w [request_of self d]) (consume_log st r)))
      as [Hfs Hdirs].
    rewrite Hfs, Hdirs. auto.
Qed.

(** With transport-level failures only, the loop ends, having consumed one
    result per request, and having sent the requests. *)
Lemma as_completed_loop_run order st w :
  transport_level_failures env ->
  exists results w',
    Forall2 (fetched env self) order results /\
    as_completed_loop self order st env w
    = (Ok (fold_left consume_state results st), w') /\
    requests w' = requests w ++ map (request_of self) order.
Proof.
  intros Ht. revert st w.
  induction order as [|d order IH]; intros st w.
  - exists [], w. cbn. rewrite app_nil_r. repeat split; constructor.
  - destruct (get_scores_outcome_total env self d Ht) as [r Hr].
    destruct (IH (consume_state st r)
                 (logged (requested w [request_of self d]) (consume_log st r)))
      as (results & w' & Hres & Hrun & Hreq).
    exists (r :: results), w'. split; [|split].
    + constructor; [|exact Hres].
      intros w0. now rewrite get_scores_run.
    + cbn. unfold bind. rewrite get_scores_run, Hr, consume_run. exact Hrun.
    + rewrite Hreq. cbn. now rewrite <- app_assoc.
Qed.

(** Over requests that return, the loop ends with the fold of its body. *)
Lemma as_completed_loop_fetched order results :
  Forall2 (fetched env self) order results ->
  forall st w, exists w',
    as_completed_loop self order st env w
    = (Ok (fold_left consume_state results st), w').
Proof.
  induction 1 as [|d r order results Hd _ IH]; intros st w.
  - exists w. reflexivity.
  - specialize (Hd w). rewrite get_scores_run in Hd. cbn [fst] in Hd.
    destruct (IH (consume_state st r)
                 (logged (requested w [request_of self d]) (consume_log st r)))
      as [w' Hrun].
    exists w'. cbn [as_completed_loop fold_left]. unfold bind.
    now rewrite get_scores_run, Hd, consume_run.
Qed.

Lemma fetched_descriptor d r : fetched env self d r -> result_descriptor r = d.
Proof.
  intros H. specialize (H initial_world). rewrite get_scores_run in H.
  eapply get_scores_outcome_descriptor, H.
Qed.

Lemma fetched_descriptors order results :
  Forall2 (fetched env self) order results ->
  map result_descriptor results = order.
Proof.
  induction 1 as [|d r order results Hd _ IH]; cbn; [reflexivity|].
  now rewrite (fetched_descriptor d r Hd), IH.
Qed.

End Loop.

(** ** Dictionaries and the aggregate *)

Section Dictionaries.

Context {V : Type}.

Lemma dict_set_fresh (k : pystr) (v : V) (d : pydict V) :
  ~ In k (map fst d) -> dict_set k v d = d ++ [(k, v)].
Proof.
  induction d as [|[k' v'] d IH]; cbn; intros Hk; [reflexivity|].
  destruct (decide (k' = k)) as [->|Hne].
  - exfalso. apply Hk. now left.
  - rewrite IH; [reflexivity|]. intros Hin. apply Hk. now right.
Qed.

Lemma dict_fold_fresh (items acc : pydict V) :
  List.NoDup (map fst (acc ++ items)) ->
  fold_left (fun d kv => dict_set (fst kv) (snd kv) d) items acc
  = acc ++ items.
Proof.
  revert acc. induction items as [|[k v] items IH]; intros acc Hnd; cbn.
  - now rewrite app_nil_r.
  - rewrite dict_set_fresh.
    + rewrite IH; rewrite <- app_assoc; [reflexivity|exact Hnd].
    + rewrite map_app in Hnd. cbn in Hnd.
      apply NoDup_remove_2 in Hnd. intros Hin. apply Hnd.
      apply in_or_app. now left.
Qed.

(** [dict(pairs)] of pairs with distinct keys is the pairs themselves. *)
Lemma dict_of_pairs_NoDup (items : pydict V) :
  List.NoDup (map fst items) -> dict_of_pairs items = items.
Proof. intros Hnd. unfold dict_of_pairs. now rewrite dict_fold_fresh. Qed.

Lemma dict_get_In (k : pystr) (v : V) (d : pydict V) :
  List.NoDup (map fst d) -> In (k, v) d -> dict_get k d = Some v.
Proof.
  induction d as [|[k' v'] d IH]; cbn; intros Hnd Hin; [easy|].
  apply NoDup_cons_iff in Hnd as [Hk' Hnd].
  destruct Hin as [[= -> ->]|Hin].
  - now rewrite decide_True.
  - rewrite decide_False; [auto|].
    intros ->. apply Hk'. apply in_map_iff. now exists (k, v).
Qed.

End Dictionaries.

Section Aggregate.

Lemma consume_state_cases all_data s f r :
  consume_state (all_data, s, f) r
  = if is_success r
    then (dict_set (fst (item_of r)) (snd (item_of r)) all_data, s + 1, f)
    else (all_data, s, f + 1).
Proof.
  unfold consume_state, item_of. rewrite is_success_cases.
  destruct (r_status r), (r_data r); reflexivity.
Qed.

(** The loop variables after some more results: the successes were set in
    [all_data] in their order of arrival, and each result was counted
    once. *)
Lemma fold_consume_state results all_data s f :
  fold_left consume_state results (all_data, s, f)
  = (fold_left (fun d kv => dict_set (fst kv) (snd kv) d)
       (map item_of (List.filter is_success results)) all_data,
     s + Z.of_nat (length (List.filter is_success results)),
     f + Z.of_nat (length results)
       - Z.of_nat (length (List.filter is_success results))).
Proof.
  revert all_data s f.
  induction results as [|r results IH]; intros all_data s f.
  - cbn. apply pair_equal_spec; split;
      [apply pair_equal_spec; split; [reflexivity|lia] | lia].
  - cbn [fold_left List.filter]. rewrite consume_state_cases.
    destruct (is_success r); rewrite IH; cbn [map fold_left length];
      (apply pair_equal_spec; split;
       [apply pair_equal_spec; split; [reflexivity|lia] | lia]).
Qed.

Lemma filter_length_le {A} (p : A -> bool) (l : list A) :
  (length (List.filter p l) <= length l)%nat.
Proof.
  induction l as [|x l IH]; cbn; [lia|]. destruct (p x); cbn; lia.
Qed.

Lemma NoDup_map_filter {A B} (g : A -> B) (p : A -> bool) (l : list A) :
  List.NoDup (map g l) -> List.NoDup (map g (List.filter p l)).
Proof.
  induction l as [|x l IH]; cbn; intros Hnd; [constructor|].
  apply NoDup_cons_iff in Hnd as [Hx Hnd].
  destruct (p x); cbn; [|auto].
  constructor; [|auto].
  intros Hin. apply Hx. apply in_map_iff in Hin as (y & Hy & Hin).
  apply in_map_iff. exists y. split; [exact Hy|].
  now apply filter_In in Hin as [Hin _].
Qed.

(** Results for distinct descriptors contribute distinct keys. *)
Lemma success_keys_NoDup results :
  List.NoDup (map result_descriptor results) ->
  List.NoDup (map fst (map item_of (List.filter is_success results))).
Proof.
  intros Hnd. rewrite map_map. cbn [item_of fst].
  apply (NoDup_map_filter result_descriptor is_success) in Hnd.
  rewrite <- (map_map result_descriptor combination_key).
  apply Injective_map_NoDup; [|exact Hnd].
  intros d1 d2. apply combination_key_inj.
Qed.

(** The aggregate of results for distinct descriptors. *)
Lemma aggregate_distinct results :
  List.NoDup (map result_descriptor results) ->
  aggregate results
  = (map item_of (List.filter is_success results),
     Z.of_nat (length (List.filter is_success results)),
     Z.of_nat (length results)
       - Z.of_nat (length (List.filter is_success results))).
Proof.
  intros Hnd. unfold aggregate. rewrite fold_consume_state.
  rewrite dict_fold_fresh by (now apply success_keys_NoDup).
  reflexivity.
Qed.

End Aggregate.

(** ** The invariant of the aggregation loop *)

Lemma example_service_transport_level :
  transport_level_failures (environ_with_post example_service).
Proof.
  intros [url [[dt ct] pt] headers]. cbn. unfold example_service. cbn.
  destruct (dt =? 1); [|destruct (dt =? 2)];
    (split;
     [ intros e He; try discriminate He; injection He as <-; reflexivity
     | intros resp Hr e He; try discriminate Hr;
       injection Hr as <-; discriminate He ]).
Qed.

(** Every task completes once: a completion order of the 240 requests
    has no repetition. *)
Lemma completion_order_NoDup (env : environ) :
  Permutation (as_completed env combinations) combinations ->
  List.NoDup (as_completed env combinations).
Proof.
  intros Hperm. eapply Permutation_NoDup.
  - symmetry. exact Hperm.
  - exact combinations_NoDup.
Qed.

(** C3. Let the loop consume the results of any sequence of requests, as
    [as_completed] delivers them. The loop ends with
    [successful_archives + failed_archives] equal to the number of results
    consumed, [successful_archives] being the number of successful results.
    When the requests are pairwise distinct, as the tasks of a run are,
    [all_data] has exactly [successful_archives] items, one per successful
    result, under the key "{d}_{c}_{p}" of its descriptor and holding its
    data, and its keys are pairwise distinct. Two distinct descriptors,
    inside the parameter space or not, never have the same key. *)
Theorem aggregation_invariant
    (env : environ) (self : LeaderboardArchiver) (order : list (Z * Z * Z))
    (w : world) :
  transport_level_failures env ->
  (exists results all_data successful_archives failed_archives w',
     Forall2 (fetched env self) order results /\
     as_completed_loop self order ([], 0, 0) env w
     = (Ok (all_data, successful_archives, failed_archives), w') /\
     successful_archives + failed_archives = Z.of_nat (length results) /\
     length results = length order /\
     successful_archives
     = Z.of_nat (length (List.filter is_success results)) /\
     (List.NoDup order ->
      Z.of_nat (length all_data) = successful_archives /\
      all_data = map item_of (List.filter is_success results) /\
      List.NoDup (map fst all_data))) /\
  (forall d1 d2, d1 <> d2 -> combination_key d1 <> combination_key d2).
Proof.
  intros Ht. split.
  - destruct (as_completed_loop_run env self order ([], 0, 0) w Ht)
      as (results & w' & Hres & Hrun & _).
    pose proof (fetched_descriptors env self order results Hres) as Hdesc.
    rewrite fold_consume_state in Hrun.
    pose proof (filter_length_le is_success results) as Hle.
    eexists results, _, _, _, w'.
    split; [exact Hres|]. split; [exact Hrun|].
    split; [lia|].
    split; [rewrite <- Hdesc; now rewrite length_map|].
    split; [lia|].
    intros Hnd.
    assert (Hnd' : List.NoDup (map result_descriptor results))
      by now rewrite Hdesc.
    rewrite dict_fold_fresh by (now apply success_keys_NoDup).
    cbn [app]. split; [now rewrite length_map|].
    split; [reflexivity|now apply success_keys_NoDup].
  - intros d1 d2 Hne Hkey. apply Hne. now apply combination_key_inj.
Qed.

Lemma aggregation_invariant_witness :
  exists results all_data successful_archives failed_archives w',
    Forall2 (fetched (environ_with_post example_service) example_archiver)
      [(1, 0, 1); (2, 0, 1); (1, 3, 2); (5, 1, 1)] results /\
    as_completed_loop example_archiver
      [(1, 0, 1); (2, 0, 1); (1, 3, 2); (5, 1, 1)] ([], 0, 0)
      (environ_with_post example_service) initial_world
    = (Ok (all_data, successful_archives, failed_archives), w') /\
    successful_archives + failed_archives = Z.of_nat (length results) /\
    Z.of_nat (length all_data) = successful_archives /\
    all_data = map item_of (List.filter is_success results) /\
    List.NoDup (map fst all_data).
Proof.
  assert (Hnd : List.NoDup [(1, 0, 1); (2, 0, 1); (1, 3, 2); (5, 1, 1)]).
  { repeat (constructor; [cbn; intuition discriminate|]). constructor. }
  destruct (proj1 (aggregation_invariant (environ_with_post example_service)
                     example_archiver
                     [(1, 0, 1); (2, 0, 1); (1, 3, 2); (5, 1, 1)]
                     initial_world example_service_transport_level))
    as (results & all_data & s & f & w' & Hres & Hrun & Hsum & _ & _ & Hdoc).
  exists results, all_data, s, f, w'.
  exact (conj Hres (conj Hrun (conj Hsum (Hdoc Hnd)))).
Defined.

(** ** JSON strings: writing and reading back *)

(** Linear arithmetic with division and remainder by constants. *)
Ltac div_mod_lia := zify; Z.to_euclidean_division_equations; lia.

Section Hexadecimal.

Lemma hex_value_hex_digit (k : N) :
  (k < 16)%N -> hex_value (hex_digit k) = Some k.
Proof.
  intros Hk. unfold hex_digit, hex_value.
  destruct (k <? 10)%N eqn:Hlt.
  - apply N.ltb_lt in Hlt.
    replace ((48 <=? 48 + k) && (48 + k <=? 57))%N with true
      by (symmetry; apply andb_true_iff; split; apply N.leb_le; lia).
    f_equal. lia.
  - apply N.ltb_ge in Hlt.
    replace ((48 <=? 87 + k) && (87 + k <=? 57))%N with false
      by (symmetry; apply andb_false_iff; right; apply N.leb_gt; lia).
    replace ((97 <=? 87 + k) && (87 + k <=? 102))%N with true
      by (symmetry; apply andb_true_iff; split; apply N.leb_le; lia).
    f_equal. lia.
Qed.

Lemma hex_digit_ascii (k : N) : (k < 16)%N -> (hex_digit k < 128)%N.
Proof. unfold hex_digit. destruct (k <? 10)%N; lia. Qed.

Lemma mod16_lt (n : N) : (n mod 16 < 16)%N.
Proof. apply N.mod_lt. discriminate. Qed.

(** The four digits written for [n] read back as [n]. *)
Lemma decode_uXXXX_hex4 (n : N) :
  (n < 65536)%N ->
  decode_uXXXX (hex_digit (n / 4096 mod 16)) (hex_digit (n / 256 mod 16))
    (hex_digit (n / 16 mod 16)) (hex_digit (n mod 16)) = Some n.
Proof.
  intros Hn. unfold decode_uXXXX.
  rewrite !hex_value_hex_digit by apply mod16_lt.
  f_equal.
  clear -Hn. div_mod_lia.
Qed.

End Hexadecimal.

Section Surrogates.

Lemma lor_low_bits (a b : N) :
  (b < 1024)%N -> N.lor (a * 1024) b = (a * 1024 + b)%N.
Proof.
  intros Hb.
  assert (Hland : N.land (a * 1024) b = 0%N).
  { apply N.bits_inj_0. intros i. rewrite N.land_spec.
    change 1024%N with (2 ^ 10)%N.
    destruct (N.lt_ge_cases i 10) as [Hi|Hi].
    - now rewrite N.mul_pow2_bits_low.
    - destruct (N.eq_dec b 0%N) as [->|Hb0].
      + now rewrite N.bits_0, andb_false_r.
      + rewrite (N.bits_above_log2 b i), andb_false_r; [reflexivity|].
        apply N.lt_le_trans with 10%N; [|exact Hi].
        apply N.log2_lt_pow2; [lia|exact Hb]. }
  rewrite <- N.lxor_lor by exact Hland.
  symmetry. now apply N.add_nocarry_lxor.
Qed.

(** The surrogate pair written for a code point above the basic plane,
    and how the decoder puts it together again. *)
Lemma surrogate_pair (c : N) :
  (65536 <= c)%N -> (c < 1114112)%N ->
  let n := (c - 65536)%N in
  let s1 := N.lor 55296 (N.land (N.shiftr n 10) 1023) in
  let s2 := N.lor 56320 (N.land n 1023) in
  (s1 < 65536)%N /\ (s2 < 65536)%N /\
  is_high_surrogate s1 = true /\ is_low_surrogate s2 = true /\
  (65536 + N.lor (N.shiftl (s1 - 55296) 10) (s2 - 56320))%N = c.
Proof.
  intros Hlo Hhi n s1 s2.
  assert (Hn : (n < 1048576)%N) by (unfold n; lia).
  assert (E1 : N.land (N.shiftr n 10) 1023 = (n / 1024)%N).
  { change 1023%N with (N.ones 10).
    rewrite N.land_ones, N.shiftr_div_pow2.
    change (2 ^ 10)%N with 1024%N.
    apply N.mod_small. apply N.Div0.div_lt_upper_bound. lia. }
  assert (E2 : N.land n 1023 = (n mod 1024)%N).
  { change 1023%N with (N.ones 10). now rewrite N.land_ones. }
  assert (Hq : (n / 1024 < 1024)%N)
    by (apply N.Div0.div_lt_upper_bound; lia).
  assert (Hr : (n mod 1024 < 1024)%N) by (apply N.mod_lt; discriminate).
  assert (Hs1 : s1 = (55296 + n / 1024)%N).
  { unfold s1. rewrite E1. change 55296%N with (54 * 1024)%N.
    now apply lor_low_bits. }
  assert (Hs2 : s2 = (56320 + n mod 1024)%N).
  { unfold s2. rewrite E2. change 56320%N with (55 * 1024)%N.
    now apply lor_low_bits. }
  rewrite Hs1, Hs2.
  split; [lia|]. split; [lia|].
  split; [unfold is_high_surrogate; apply andb_true_iff;
          split; apply N.leb_le; lia|].
  split; [unfold is_low_surrogate; apply andb_true_iff;
          split; apply N.leb_le; lia|].
  replace (55296 + n / 1024 - 55296)%N with (n / 1024)%N by lia.
  replace (56320 + n mod 1024 - 56320)%N with (n mod 1024)%N by lia.
  rewrite N.shiftl_mul_pow2. change (2 ^ 10)%N with 1024%N.
  rewrite lor_low_bits by exact Hr.
  pose proof (N.div_mod n 1024 ltac:(discriminate)). unfold n in *. lia.
Qed.

End Surrogates.

Section Scanstring.

Lemma scanstring_plain (c : N) (rest : pystr) :
  c <> 34%N -> c <> 92%N -> (32 <= c)%N ->
  scanstring (c :: rest) = append_char c (scanstring rest).
Proof.
  intros H34 H92 H32. cbn [scanstring].
  apply N.eqb_neq in H34, H92. rewrite H34, H92.
  apply N.ltb_ge in H32. now rewrite H32.
Qed.

Lemma scanstring_backslash (esc ch : N) (rest : pystr) :
  esc <> 117%N -> backslash esc = Some ch ->
  scanstring (92%N :: esc :: rest) = append_char ch (scanstring rest).
Proof.
  intros H117 Hb. cbn [scanstring].
  change (92 =? 34)%N with false. change (92 =? 92)%N with true. cbv iota.
  apply N.eqb_neq in H117. now rewrite H117, Hb.
Qed.

Lemma scanstring_u (h1 h2 h3 h4 uni : N) (rest : pystr) :
  decode_uXXXX h1 h2 h3 h4 = Some uni ->
  is_high_surrogate uni = false ->
  scanstring (92%N :: 117%N :: h1 :: h2 :: h3 :: h4 :: rest)
  = append_char uni (scanstring rest).
Proof.
  intros Hd Hh. cbn [scanstring].
  change (92 =? 34)%N with false. change (92 =? 92)%N with true.
  change (117 =? 117)%N with true. cbv iota.
  now rewrite Hd, Hh.
Qed.

Lemma scanstring_pair (h1 h2 h3 h4 g1 g2 g3 g4 uni uni2 : N) (rest : pystr) :
  decode_uXXXX h1 h2 h3 h4 = Some uni ->
  is_high_surrogate uni = true ->
  decode_uXXXX g1 g2 g3 g4 = Some uni2 ->
  is_low_surrogate uni2 = true ->
  scanstring (92%N :: 117%N :: h1 :: h2 :: h3 :: h4
              :: 92%N :: 117%N :: g1 :: g2 :: g3 :: g4 :: rest)
  = append_char
      (65536 + N.lor (N.shiftl (uni - 55296) 10) (uni2 - 56320))%N
      (scanstring rest).
Proof.
  intros Hd Hh Hd2 Hl. cbn [scanstring].
  change (92 =? 34)%N with false. change (92 =? 92)%N with true.
  change (117 =? 117)%N with true. cbv iota.
  rewrite Hd, Hh. cbn [andb]. now rewrite Hd2, Hl.
Qed.

Lemma scalar_value_cases (c : N) :
  is_scalar_value c = true ->
  (c < 1114112)%N /\ is_surrogate c = false /\ is_high_surrogate c = false.
Proof.
  unfold is_scalar_value, is_surrogate, is_high_surrogate.
  intros H. apply andb_true_iff in H as [Hlt Hs].
  apply N.ltb_lt in Hlt. apply negb_true_iff in Hs.
  split; [exact Hlt|]. split; [exact Hs|].
  apply andb_false_iff in Hs as [Hs|Hs]; apply N.leb_gt in Hs.
  - apply andb_false_iff. left. apply N.leb_gt. lia.
  - apply andb_false_iff. right. apply N.leb_gt. lia.
Qed.

(** Reading what [escape_char] wrote for one character gives the
    character back. *)
Lemma scanstring_escape_char (c : N) (tail : pystr) :
  is_scalar_value c = true ->
  scanstring (escape_char c ++ tail) = append_char c (scanstring tail).
Proof.
  intros Hc. destruct (scalar_value_cases c Hc) as (Hmax & _ & Hhigh).
  unfold escape_char.
  destruct (N.eqb_spec c 34) as [->|H34];
    [now apply scanstring_backslash|].
  destruct (N.eqb_spec c 92) as [->|H92];
    [now apply scanstring_backslash|].
  destruct ((32 <=? c) && (c <=? 126))%N eqn:Hprint.
  { apply andb_true_iff in Hprint as [H32 _]. apply N.leb_le in H32.
    now apply scanstring_plain. }
  destruct (N.eqb_spec c 8) as [->|H8]; [now apply scanstring_backslash|].
  destruct (N.eqb_spec c 12) as [->|H12]; [now apply scanstring_backslash|].
  destruct (N.eqb_spec c 10) as [->|H10]; [now apply scanstring_backslash|].
  destruct (N.eqb_spec c 13) as [->|H13]; [now apply scanstring_backslash|].
  destruct (N.eqb_spec c 9) as [->|H9]; [now apply scanstring_backslash|].
  destruct (N.ltb_spec c 65536) as [Hbmp|Hastral].
  - unfold hex4. cbn [app].
    apply scanstring_u; [now apply decode_uXXXX_hex4|exact Hhigh].
  - destruct (surrogate_pair c Hastral Hmax)
      as (Hs1 & Hs2 & Hh1 & Hl2 & Hback).
    set (s1 := N.lor 55296 _) in *. set (s2 := N.lor 56320 _) in *.
    unfold hex4. cbn [app].
    rewrite (scanstring_pair _ _ _ _ _ _ _ _ s1 s2)
      by auto using decode_uXXXX_hex4.
    now rewrite Hback.
Qed.

(** Reading what [encode_basestring_ascii] wrote, after its opening quote,
    gives the string back and stops after the closing quote. *)
Lemma scanstring_encode (s rest : pystr) :
  well_formed_text s ->
  scanstring (flat_map escape_char s ++ 34%N :: rest) = Some (s, rest).
Proof.
  induction 1 as [|c s Hc _ IH]; cbn [flat_map app].
  - reflexivity.
  - rewrite <- app_assoc, scanstring_escape_char by exact Hc.
    now rewrite IH.
Qed.

End Scanstring.

(** ** JSON values: writing and reading back *)

Section JsonValues.

Lemma json_induction (P : json -> Prop) :
  (forall s, P (JString s)) ->
  (forall members, Forall (fun kv => P (snd kv)) members ->
                   P (JObject members)) ->
  forall v, P v.
Proof.
  intros Hs Ho. fix IH 1. intros [s|members].
  - apply Hs.
  - apply Ho. induction members as [|[k v] members IHm]; constructor.
    + apply IH.
    + apply IHm.
Qed.

Lemma json_dumps_object members :
  json_dumps (JObject members)
  = [123%N] ++ dumps_items true members ++ [125%N].
Proof.
  reflexivity.
Qed.

Lemma well_formed_json_object members :
  well_formed_json (JObject members) <->
  List.NoDup (map fst members) /\
  Forall (fun kv => well_formed_text (fst kv) /\ well_formed_json (snd kv))
    members.
Proof.
  cbn [well_formed_json].
  assert (H : forall l : list (pystr * json),
    (fix all (l : list (pystr * json)) : Prop :=
       match l with
       | [] => True
       | (key, value) :: rest =>
           well_formed_text key /\ well_formed_json value /\ all rest
       end) l
    <-> Forall (fun kv => well_formed_text (fst kv)
                          /\ well_formed_json (snd kv)) l).
  { induction l as [|[k v] l IH].
    - split; [constructor|trivial].
    - rewrite Forall_cons_iff, <- IH. cbn [fst snd]. tauto. }
  now rewrite H.
Qed.

Lemma items_size_cons key value (members : list (pystr * json)) :
  items_size ((key, value) :: members)
  = S (json_size value + items_size members).
Proof. reflexivity. Qed.

Lemma json_size_object members :
  json_size (JObject members) = S (items_size members).
Proof.
  cbn [json_size]. f_equal.
  induction members as [|[k v] members IH]; [reflexivity|].
  now rewrite items_size_cons, <- IH.
Qed.

Lemma skip_whitespace_head (c : N) (s : pystr) :
  is_whitespace c = false -> skip_whitespace (c :: s) = c :: s.
Proof. intros H. cbn. now rewrite H. Qed.

(** A serialized value starts with a quote or a brace. *)
Lemma json_dumps_head v (rest : pystr) :
  exists c tail, json_dumps v ++ rest = c :: tail /\ is_whitespace c = false.
Proof.
  destruct v as [s|members].
  - exists 34%N. eexists. split; [reflexivity|reflexivity].
  - rewrite json_dumps_object. exists 123%N. eexists.
    split; reflexivity.
Qed.

Lemma skip_whitespace_json_dumps v (rest : pystr) :
  skip_whitespace (json_dumps v ++ rest) = json_dumps v ++ rest.
Proof.
  destruct (json_dumps_head v rest) as (c & tail & -> & Hc).
  now apply skip_whitespace_head.
Qed.

(** The loop of [JSONObject] reads the items of a dictionary back, given a
    [scan_once] that reads their values back. *)
Lemma JSONObject_loop_dumps (scan : pystr -> option (json * pystr))
    (members : list (pystr * json)) :
  forall (key : pystr) (value : json) (pairs : list (pystr * json))
         (fuel : nat) (rest : pystr),
    Forall (fun kv =>
              well_formed_text (fst kv) /\
              forall tail, scan (json_dumps (snd kv) ++ tail)
                           = Some (snd kv, tail))
      ((key, value) :: members) ->
    (length members < fuel)%nat ->
    JSONObject_loop scan fuel
      (flat_map escape_char key ++ 34%N :: 58%N :: json_dumps value
       ++ dumps_items false members ++ 125%N :: rest) pairs
    = Some (JObject (dict_of_pairs (pairs ++ (key, value) :: members)), rest).
Proof.
  induction members as [|[k2 v2] members IH];
    intros key value pairs fuel rest Hall Hfuel;
    (destruct fuel as [|fuel]; [cbn in Hfuel; lia|]);
    apply Forall_cons_iff in Hall as [[Hkey Hvalue] Hall];
    cbn [fst snd] in Hkey, Hvalue;
    cbn [JSONObject_loop];
    rewrite scanstring_encode by exact Hkey;
    rewrite skip_whitespace_head by reflexivity;
    change (58 =? 58)%N with true; cbv iota;
    rewrite skip_whitespace_json_dumps, Hvalue.
  - cbn [dumps_items app].
    rewrite skip_whitespace_head by reflexivity. reflexivity.
  - cbn [dumps_items encode_basestring_ascii app].
    rewrite skip_whitespace_head by reflexivity.
    change (44 =? 125)%N with false. change (44 =? 44)%N with true. cbv iota.
    rewrite <- !app_assoc. cbn [app].
    rewrite skip_whitespace_head by reflexivity.
    change (34 =? 34)%N with true. cbv iota.
    rewrite <- ?app_assoc.
    rewrite IH; [|exact Hall|cbn in Hfuel; lia].
    now rewrite <- app_assoc.
Qed.

Lemma items_size_bounds (members : list (pystr * json)) :
  (length members <= items_size members)%nat /\
  Forall (fun kv => (json_size (snd kv) <= items_size members)%nat) members.
Proof.
  induction members as [|[k v] members [IH1 IH2]].
  - split; [cbn; lia|constructor].
  - rewrite items_size_cons. split; [cbn [length]; lia|].
    constructor; [cbn [snd]; lia|].
    eapply List.Forall_impl; [|exact IH2]. cbn beta. intros kv H. lia.
Qed.

(** [scan_once] reads back what [json_dumps] wrote, whatever follows. *)
Lemma scan_once_dumps v :
  well_formed_json v ->
  forall (fuel : nat) (rest : pystr),
    (json_size v <= fuel)%nat ->
    scan_once fuel (json_dumps v ++ rest) = Some (v, rest).
Proof.
  induction v as [s|members IH] using json_induction;
    intros Hwf fuel rest Hfuel.
  - destruct fuel as [|fuel]; [cbn in Hfuel; lia|].
    cbn [json_dumps encode_basestring_ascii app scan_once].
    change (34 =? 34)%N with true. cbv iota.
    rewrite <- app_assoc. cbn [app].
    now rewrite scanstring_encode.
  - apply well_formed_json_object in Hwf as [Hnd Hwf].
    rewrite json_size_object in Hfuel.
    destruct fuel as [|fuel]; [lia|].
    rewrite json_dumps_object. cbn [app scan_once].
    change (123 =? 34)%N with false. change (123 =? 123)%N with true.
    cbv iota. unfold JSONObject.
    destruct members as [|[key value] members].
    + cbn [dumps_items app].
      rewrite skip_whitespace_head by reflexivity. reflexivity.
    + cbn [dumps_items encode_basestring_ascii app].
      rewrite skip_whitespace_head by reflexivity.
      change (34 =? 125)%N with false. change (34 =? 34)%N with true.
      cbv iota. rewrite <- !app_assoc. cbn [app]. rewrite <- ?app_assoc.
      destruct (items_size_bounds ((key, value) :: members)) as [Hlen Hsz].
      rewrite JSONObject_loop_dumps.
      * cbn [app]. now rewrite dict_of_pairs_NoDup.
      * rewrite Forall_forall in IH, Hwf, Hsz. apply Forall_forall.
        intros kv Hin. split; [apply (Hwf kv Hin)|].
        intros tail. apply (IH kv Hin); [apply (Hwf kv Hin)|].
        specialize (Hsz kv Hin). lia.
      * cbn [length] in Hlen. lia.
Qed.

Lemma encode_length (s : pystr) : (2 <= length (encode_basestring_ascii s))%nat.
Proof.
  unfold encode_basestring_ascii. rewrite !length_app. cbn. lia.
Qed.

Lemma json_size_le_length v : (json_size v <= length (json_dumps v))%nat.
Proof.
  induction v as [s|members IH] using json_induction.
  - cbn [json_size json_dumps]. pose proof (encode_length s). lia.
  - rewrite json_size_object, json_dumps_object, !length_app. cbn [length].
    enough (H : forall first,
              (items_size members <= length (dumps_items first members))%nat)
      by (specialize (H true); lia).
    induction members as [|[k v] members IHm]; intros first;
      [cbn; lia|].
    rewrite items_size_cons. cbn [dumps_items].
    apply Forall_cons_iff in IH as [Hv IH]. cbn [snd] in Hv.
    rewrite !length_app. pose proof (encode_length k).
    specialize (IHm IH false). cbn [length]. lia.
Qed.

(** [json.loads(json.dumps(v, separators=(',', ':')))] is [v]. *)
Lemma json_loads_dumps v :
  well_formed_json v -> json_loads (json_dumps v) = Some v.
Proof.
  intros Hwf. unfold json_loads.
  rewrite <- (app_nil_r (json_dumps v)) at 2.
  rewrite skip_whitespace_json_dumps.
  rewrite scan_once_dumps; [reflexivity|exact Hwf|].
  pose proof (json_size_le_length v). lia.
Qed.

End JsonValues.

(** ** The serialized text is ASCII *)

Section Ascii.

Lemma ascii_text_app (s t : pystr) :
  ascii_text s -> ascii_text t -> ascii_text (s ++ t).
Proof. intros Hs Ht. apply Forall_app. now split. Qed.

Lemma hex4_ascii (n : N) : ascii_text (hex4 n).
Proof.
  unfold hex4. repeat constructor; apply hex_digit_ascii, mod16_lt.
Qed.

Lemma escape_char_ascii (c : N) : ascii_text (escape_char c).
Proof.
  unfold escape_char.
  destruct (c =? 34)%N; [repeat constructor|].
  destruct (c =? 92)%N; [repeat constructor|].
  destruct ((32 <=? c) && (c <=? 126))%N eqn:Hprint.
  { apply andb_true_iff in Hprint as [_ H]. apply N.leb_le in H.
    repeat constructor. lia. }
  destruct (c =? 8)%N; [repeat constructor|].
  destruct (c =? 12)%N; [repeat constructor|].
  destruct (c =? 10)%N; [repeat constructor|].
  destruct (c =? 13)%N; [repeat constructor|].
  destruct (c =? 9)%N; [repeat constructor|].
  destruct (c <? 65536)%N.
  - do 2 (constructor; [reflexivity|]). apply hex4_ascii.
  - apply ascii_text_app;
      (do 2 (constructor; [reflexivity|]); apply hex4_ascii).
Qed.

Lemma encode_basestring_ascii_ascii (s : pystr) :
  ascii_text (encode_basestring_ascii s).
Proof.
  unfold encode_basestring_ascii.
  apply ascii_text_app; [repeat constructor|].
  apply ascii_text_app; [|repeat constructor].
  induction s as [|c s IH]; cbn [flat_map]; [constructor|].
  apply ascii_text_app; [apply escape_char_ascii|exact IH].
Qed.

Lemma json_dumps_ascii v : ascii_text (json_dumps v).
Proof.
  induction v as [s|members IH] using json_induction.
  - apply encode_basestring_ascii_ascii.
  - rewrite json_dumps_object.
    apply ascii_text_app; [repeat constructor|].
    apply ascii_text_app; [|repeat constructor].
    generalize true.
    induction members as [|[k v] members IHm]; intros first;
      cbn [dumps_items]; [constructor|].
    apply Forall_cons_iff in IH as [Hv IH]. cbn [snd] in Hv.
    apply ascii_text_app; [destruct first; repeat constructor|].
    apply ascii_text_app; [apply encode_basestring_ascii_ascii|].
    apply ascii_text_app; [repeat constructor|].
    apply ascii_text_app; [exact Hv|now apply IHm].
Qed.

(** ASCII text is its own UTF-8 encoding. *)
Lemma encode_utf8_ascii (s : pystr) : ascii_text s -> encode_utf8 s = Ok s.
Proof.
  induction 1 as [|c s Hc _ IH]; cbn [encode_utf8]; [reflexivity|].
  unfold utf8_char. apply N.ltb_lt in Hc. now rewrite Hc, IH.
Qed.

Lemma decode_utf8_ascii (s : pystr) : ascii_text s -> decode_utf8 s = Some s.
Proof.
  induction 1 as [|c s Hc _ IH]; cbn [decode_utf8]; [reflexivity|].
  apply N.ltb_lt in Hc. now rewrite Hc, IH.
Qed.

End Ascii.

(** ** [compress_and_save_archive] *)

Section Writer.

Variable env : environ.
Variable self : LeaderboardArchiver.

Lemma archive_text_encoded all_data :
  encode_utf8 (archive_text env all_data) = Ok (archive_text env all_data).
Proof. apply encode_utf8_ascii, json_dumps_ascii. Qed.

Lemma archive_text_size all_data :
  (Z.of_nat (length (archive_text env all_data)) =? 0) = false.
Proof.
  unfold archive_text, archive_document. rewrite json_dumps_object.
  cbn [app length]. apply Z.eqb_neq. lia.
Qed.

(** Without a fault, the archive is written, its path returned and two
    lines logged. *)
Lemma compress_and_save_archive_ok all_data w :
  first_fault env = None ->
  compress_and_save_archive self all_data env w
  = (Ok (Some (archive_path_of env)),
     World (<[archive_path_of env :=
                lzma_compress env (archive_text env all_data)]> (fs w))
       ({[lit "archives"]} ∪ dirs w)
       (log w ++
        [(INFO, Text (lit "LZMA archive saved: " ++ archive_path_of env));
         (INFO, CompressionStats
                  (Z.of_nat (length (archive_text env all_data)))
                  (Z.of_nat (length (lzma_compress env
                                       (archive_text env all_data)))))])
       (requests w)).
Proof.
  unfold first_fault. intros Hf.
  destruct (makedirs_fault env) eqn:Hmk; [discriminate Hf|].
  destruct (lzma_write_fault env) as [[e p]|] eqn:Hwr; [discriminate Hf|].
  unfold compress_and_save_archive, try_except, bind, datetime_now_isoformat,
    lift, os_makedirs, datetime_now_strftime_Ymd, os_path_join,
    lzma_open_write, os_path_getsize, logger_info, ret, raise.
  fold (archive_text env all_data). fold (archive_path_of env).
  rewrite archive_text_encoded, Hmk, Hwr, Hf.
  cbn [fs dirs log requests].
  rewrite lookup_insert_eq, archive_text_size.
  cbn [fs dirs log requests]. now rewrite <- app_assoc.
Qed.

(** With a fault, no path is returned: an exception that derives from
    [Exception] is logged and [None] returned, any other one propagates. *)
Lemma compress_and_save_archive_fault all_data w e :
  first_fault env = Some e ->
  exists w',
    compress_and_save_archive self all_data env w
    = (if is_Exception e then Ok None else Raise e, w') /\
    log w' = log w ++ (if is_Exception e then [write_failure_line e] else [])
    /\ requests w' = requests w.
Proof.
  unfold first_fault. intros Hf.
  unfold compress_and_save_archive, try_except, bind, datetime_now_isoformat,
    lift, os_makedirs, datetime_now_strftime_Ymd, os_path_join,
    lzma_open_write, os_path_getsize, logger_info, logger_error, ret, raise,
    except_Exception, write_failure_line.
  fold (archive_text env all_data). fold (archive_path_of env).
  rewrite archive_text_encoded.
  destruct (makedirs_fault env) as [e1|] eqn:Hmk;
    [|destruct (lzma_write_fault env) as [[e2 [partial|]]|] eqn:Hwr];
    try (injection Hf as ->); try rewrite Hf; cbn [fs dirs log requests];
    (destruct (is_Exception e); eexists; cbn [fs dirs log requests];
     rewrite ?app_nil_r; eauto).
Qed.

End Writer.

(** ** [archive_all_combinations] *)

Section Run.

Variable env : environ.
Variable self : LeaderboardArchiver.

(** [archive_all_combinations], once the loop has ended. *)
Lemma archive_all_combinations_run w all_data successful failed w1 :
  as_completed_loop self (as_completed env combinations) ([], 0, 0) env
    (logged w [starting_line])
  = (Ok (all_data, successful, failed), w1) ->
  archive_all_combinations self env w
  = if successful >? 0 then
      match compress_and_save_archive self all_data env w1 with
      | (Ok archive_path, w2) =>
          (Ok tt, logged w2 [archive_saved_to_line archive_path;
                             summary_line successful failed])
      | (Raise e, w2) => (Raise e, w2)
      end
    else
      (Ok tt, logged w1 [no_success_line; summary_line successful failed]).
Proof.
  intros Hloop.
  unfold archive_all_combinations, bind at 1 2 3, logger_info at 1,
    asyncio_as_completed.
  fold starting_line. change (World _ _ _ _) with (logged w [starting_line]).
  rewrite Hloop. cbv iota beta.
  destruct (successful >? 0).
  - unfold bind, logger_info.
    destruct (compress_and_save_archive self all_data env w1)
      as [[archive_path|e] w2]; [|reflexivity].
    unfold logged, archive_saved_to_line, summary_line.
    cbn [fs dirs log requests]. now rewrite <- app_assoc.
  - unfold bind, logger_info, logger_error, logged, no_success_line,
      summary_line.
    cbn [fs dirs log requests]. now rewrite <- app_assoc.
Qed.

(** The aggregate of results none of which is a success. *)
Lemma aggregate_no_success results :
  Forall (fun r => is_success r = false) results ->
  aggregate results = ([], 0, Z.of_nat (length results)).
Proof.
  intros Hall. unfold aggregate. rewrite fold_consume_state.
  assert (Hnil : List.filter is_success results = []).
  { induction Hall as [|r results Hr _ IH]; cbn; [reflexivity|].
    now rewrite Hr. }
  rewrite Hnil. cbn.
  apply pair_equal_spec; split; [reflexivity|lia].
Qed.

End Run.

(** ** Total failure, and failure to write the archive *)

Lemma Forall2_right_inv {A B} (P : A -> B -> Prop) (l : list A) (l' : list B) :
  Forall2 P l l' -> forall b, In b l' -> exists a, In a l /\ P a b.
Proof.
  induction 1 as [|a b l l' Hab _ IH]; intros b0 Hin; [destruct Hin|].
  destruct Hin as [<-|Hin].
  - exists a. split; [now left|exact Hab].
  - destruct (IH b0 Hin) as (a0 & Ha0 & HP). exists a0. split; [now right|auto].
Qed.

(** C6. When none of the results the loop consumes is a success, the loop
    ends with [successful_archives = 0], and [archive_all_combinations]
    logs "No successful archives to compress!" and the summary and does
    nothing else: [compress_and_save_archive] is not called, so no file and
    no directory is created or changed. *)
Theorem no_success_no_archive
    (env : environ) (self : LeaderboardArchiver) (w : world) :
  transport_level_failures env ->
  (forall d r, In d (as_completed env combinations) ->
               fetched env self d r -> is_success r = false) ->
  exists failed w1,
    as_completed_loop self (as_completed env combinations) ([], 0, 0) env
      (logged w [starting_line])
    = (Ok ([], 0, failed), w1) /\
    failed = Z.of_nat (length (as_completed env combinations)) /\
    archive_all_combinations self env w
    = (Ok tt, logged w1 [no_success_line; summary_line 0 failed]) /\
    fs (snd (archive_all_combinations self env w)) = fs w /\
    dirs (snd (archive_all_combinations self env w)) = dirs w.
Proof.
  intros Ht Hfail.
  destruct (as_completed_loop_run env self (as_completed env combinations)
              ([], 0, 0) (logged w [starting_line]) Ht)
    as (results & w1 & Hres & Hrun & _).
  assert (Hall : Forall (fun r => is_success r = false) results).
  { apply List.Forall_forall. intros r Hr.
    destruct (Forall2_right_inv _ _ _ Hres r Hr) as (d & Hd & Hdr).
    exact (Hfail d r Hd Hdr). }
  fold (aggregate results) in Hrun.
  rewrite (aggregate_no_success results Hall) in Hrun.
  assert (Hlen : length results = length (as_completed env combinations)).
  { rewrite <- (fetched_descriptors env self _ _ Hres). now rewrite length_map. }
  rewrite Hlen in Hrun.
  exists (Z.of_nat (length (as_completed env combinations))), w1.
  pose proof (archive_all_combinations_run env self w _ _ _ _ Hrun) as Hall_run.
  cbn [Z.gtb Z.compare] in Hall_run.
  split; [exact Hrun|]. split; [reflexivity|]. split; [exact Hall_run|].
  rewrite Hall_run. cbn [snd logged fs dirs].
  destruct (as_completed_loop_files env self (as_completed env combinations)
              ([], 0, 0) (logged w [starting_line])) as [Hfs Hdirs].
  rewrite Hrun in Hfs, Hdirs. cbn [snd] in Hfs, Hdirs.
  now rewrite Hfs, Hdirs.
Qed.

Lemma environ_unreachable_transport_level :
  transport_level_failures environ_unreachable.
Proof.
  intros req. split.
  - intros e [= <-]. reflexivity.
  - intros resp [=].
Qed.

Lemma no_success_no_archive_witness :
  exists failed w1,
    as_completed_loop example_archiver
      (as_completed environ_unreachable combinations) ([], 0, 0)
      environ_unreachable (logged initial_world [starting_line])
    = (Ok ([], 0, failed), w1) /\
    failed = Z.of_nat (length (as_completed environ_unreachable combinations))
    /\
    archive_all_combinations example_archiver environ_unreachable initial_world
    = (Ok tt, logged w1 [no_success_line; summary_line 0 failed]) /\
    fs (snd (archive_all_combinations example_archiver environ_unreachable
               initial_world)) = fs initial_world /\
    dirs (snd (archive_all_combinations example_archiver environ_unreachable
                 initial_world)) = dirs initial_world.
Proof.
  apply (no_success_no_archive environ_unreachable example_archiver
           initial_world).
  - exact environ_unreachable_transport_level.
  - intros d r _ Hr. specialize (Hr initial_world).
    rewrite get_scores_run in Hr. cbn in Hr. injection Hr as <-.
    destruct d as [[dt ct] pt]. reflexivity.
Defined.

(** C8 as stated fails on the code: a failed write does not end the run.
    With the disk full and every request answered, the write fails, and
    [main] returns as it does when the archive is written: normally, the
    last line of its log the summary at INFO level, with the same counts.
    The script then goes on to commit and push. *)
Lemma write_failure_does_not_end_the_run :
  first_fault environ_disk_full = Some disk_full /\
  fst (main environ_disk_full initial_world) = Ok tt /\
  (exists earlier,
     log (snd (main environ_disk_full initial_world))
     = earlier ++ [write_failure_line disk_full;
                   archive_saved_to_line None;
                   summary_line 240 0]) /\
  fst (archive_saved_to_line None) = INFO /\
  fst (summary_line 240 0) = INFO /\
  fst (main environ_in_order initial_world) = Ok tt /\
  List.last (log (snd (main environ_in_order initial_world))) starting_line
  = summary_line 240 0 /\
  script environ_disk_full example_shell_environ initial_world initial_shell
  = (Ok tt,
     (snd (main environ_disk_full initial_world),
      Shell repository_directory
        [(repository_directory, git_add);
         (repository_directory, git_commit);
         (repository_directory, git_push)])).
Proof.
  split; [reflexivity|].
  split; [vm_compute; reflexivity|].
  split.
  { exists (firstn 13 (log (snd (main environ_disk_full initial_world)))).
    vm_compute. reflexivity. }
  split; [reflexivity|]. split; [reflexivity|].
  split; [vm_compute; reflexivity|].
  split; vm_compute; reflexivity.
Qed.

(** C8, amended. When a fault of the file system or of the codec occurs
    while the archive is written, [compress_and_save_archive] returns no
    path: for an exception deriving from [Exception] it returns [None] and
    logs the failure as an error, any other exception propagates. Without a
    fault it returns the path of the archive, and the file at that path
    holds the compressed text. The failure of the write does not end the
    run: in a run with at least one success and such a fault,
    [archive_all_combinations] returns, and the error line of the failed
    write is the last error of the log; the lines after it are the caller's
    "Archive saved to: None" and the summary. *)
Theorem archive_write_failure_is_reported
    (env : environ) (self : LeaderboardArchiver) (all_data : pydict pystr) :
  (forall w,
     match first_fault env with
     | Some e =>
         exists w',
           compress_and_save_archive self all_data env w
           = (if is_Exception e then Ok None else Raise e, w') /\
           log w' = log w ++
                    (if is_Exception e then [write_failure_line e] else [])
     | None =>
         exists w',
           compress_and_save_archive self all_data env w
           = (Ok (Some (archive_path_of env)), w') /\
           fs w' !! archive_path_of env
           = Some (lzma_compress env (archive_text env all_data)) /\
           log w' = log w ++
             [(INFO, Text (lit "LZMA archive saved: " ++ archive_path_of env));
              (INFO, CompressionStats
                       (Z.of_nat (length (archive_text env all_data)))
                       (Z.of_nat (length (lzma_compress env
                                            (archive_text env all_data)))))]
     end) /\
  (forall w successful failed w1 e,
     as_completed_loop self (as_completed env combinations) ([], 0, 0) env
       (logged w [starting_line])
     = (Ok (all_data, successful, failed), w1) ->
     0 < successful ->
     first_fault env = Some e ->
     is_Exception e = true ->
     exists w2,
       archive_all_combinations self env w = (Ok tt, w2) /\
       log w2 = log w1 ++ [write_failure_line e;
                           archive_saved_to_line None;
                           summary_line successful failed] /\
       fst (write_failure_line e) = ERROR /\
       fst (archive_saved_to_line None) = INFO /\
       fst (summary_line successful failed) = INFO).
Proof.
  split.
  - intros w. destruct (first_fault env) as [e|] eqn:Hf.
    + destruct (compress_and_save_archive_fault env self all_data w e Hf)
        as (w' & Hrun & Hlog & _).
      exists w'. split; assumption.
    + rewrite (compress_and_save_archive_ok env self all_data w Hf).
      eexists. split; [reflexivity|]. cbn [fs log].
      split; [apply lookup_insert_eq|reflexivity].
  - intros w successful failed w1 e Hloop Hpos Hf He.
    rewrite (archive_all_combinations_run env self w _ _ _ _ Hloop).
    apply Z.gtb_lt in Hpos. rewrite Hpos.
    destruct (compress_and_save_archive_fault env self all_data w1 e Hf)
      as (w' & Hrun & Hlog & _).
    rewrite He in Hrun, Hlog.
    rewrite Hrun. eexists. split; [reflexivity|].
    split; [|repeat split].
    cbn [logged log]. rewrite Hlog, <- app_assoc. reflexivity.
Qed.

Lemma archive_write_failure_is_reported_witness :
  exists w',
    compress_and_save_archive example_archiver [(lit "1_0_1", lit "[]")]
      environ_disk_full initial_world = (Ok None, w') /\
    log w' = log initial_world ++ [write_failure_line disk_full].
Proof.
  exact (proj1 (archive_write_failure_is_reported environ_disk_full
                  example_archiver [(lit "1_0_1", lit "[]")])
           initial_world).
Defined.

(** ** The archive: determinism and round trip *)

Section ArchiveText.

Lemma lit_well_formed (s : string) : well_formed_text (lit s).
Proof.
  unfold well_formed_text, lit. apply List.Forall_forall. intros c Hc.
  apply in_map_iff in Hc as (a & <- & _).
  pose proof (N_ascii_bounded a) as Hb.
  unfold is_scalar_value, is_surrogate.
  apply andb_true_iff. split.
  - apply N.ltb_lt. lia.
  - apply negb_true_iff, andb_false_iff. left. apply N.leb_gt. lia.
Qed.

Lemma well_formed_text_app (s t : pystr) :
  well_formed_text s -> well_formed_text t -> well_formed_text (s ++ t).
Proof. intros Hs Ht. apply Forall_app. now split. Qed.

Lemma combination_key_well_formed d : well_formed_text (combination_key d).
Proof.
  destruct d as [[dt ct] pt]. unfold combination_key, str_int.
  repeat apply well_formed_text_app; apply lit_well_formed.
Qed.

(** The serialized archive: a fixed prefix, the timestamp, and a suffix
    that depends on [all_data] only. *)
Lemma archive_text_shape env all_data :
  archive_text env all_data
  = ([123%N] ++ encode_basestring_ascii (lit "timestamp") ++ [58%N])
    ++ encode_basestring_ascii (now_isoformat env)
    ++ ([44%N] ++ encode_basestring_ascii (lit "data") ++ [58%N]
        ++ json_dumps (json_of_dict all_data) ++ [125%N]).
Proof.
  unfold archive_text, archive_document.
  rewrite json_dumps_object. cbn [dumps_items json_dumps].
  rewrite app_nil_r, <- ?app_assoc. cbn [app]. rewrite <- ?app_assoc.
  reflexivity.
Qed.

Lemma json_of_dict_well_formed all_data :
  well_formed_dict all_data -> well_formed_json (json_of_dict all_data).
Proof.
  intros [Hnd Hall]. unfold json_of_dict.
  apply well_formed_json_object. split.
  - now rewrite map_map.
  - apply List.Forall_map. eapply List.Forall_impl; [|exact Hall].
    cbn. tauto.
Qed.

Lemma archive_document_well_formed timestamp all_data :
  well_formed_text timestamp -> well_formed_dict all_data ->
  well_formed_json (archive_document timestamp all_data).
Proof.
  intros Hts Hd. unfold archive_document.
  apply well_formed_json_object. split.
  - cbn [map fst]. constructor.
    + intros [H|[]]. discriminate H.
    + constructor; [intros []|constructor].
  - constructor; [split; [apply lit_well_formed|exact Hts]|].
    constructor; [|constructor].
    split; [apply lit_well_formed|now apply json_of_dict_well_formed].
Qed.

Lemma strings_of_json_of_dict (all_data : pydict pystr) :
  strings_of (map (fun kv => (fst kv, JString (snd kv))) all_data)
  = Some all_data.
Proof.
  induction all_data as [|[k v] all_data IH]; cbn; [reflexivity|].
  now rewrite IH.
Qed.

Lemma data_field_archive_document timestamp all_data :
  data_field (archive_document timestamp all_data) = Some all_data.
Proof.
  unfold data_field, archive_document, json_of_dict. cbn [dict_get].
  rewrite decide_False by discriminate.
  rewrite decide_True by reflexivity.
  apply strings_of_json_of_dict.
Qed.

(** [all_data] depends on the successful results and their order only. *)
Lemma aggregated_document_successes results :
  aggregated_document results
  = dict_of_pairs (map item_of (List.filter is_success results)).
Proof.
  unfold aggregated_document, aggregate. now rewrite fold_consume_state.
Qed.

(** [all_data] as the loop leaves it is a dictionary proper when the bodies
    it was given are text. *)
Lemma aggregated_document_well_formed results :
  List.NoDup (map result_descriptor results) ->
  Forall (fun r => forall body, r_data r = Some body -> well_formed_text body)
    results ->
  well_formed_dict (aggregated_document results).
Proof.
  intros Hnd Hbodies. rewrite aggregated_document_successes.
  rewrite dict_of_pairs_NoDup by now apply success_keys_NoDup.
  split; [now apply success_keys_NoDup|].
  apply List.Forall_map, List.Forall_forall. intros r Hr.
  apply filter_In in Hr as [Hr _].
  rewrite List.Forall_forall in Hbodies. specialize (Hbodies r Hr).
  cbn [item_of fst snd]. split; [apply combination_key_well_formed|].
  destruct (r_data r) as [body|]; cbn; [now apply Hbodies|constructor].
Qed.

End ArchiveText.

(** C4 as stated fails on the code. The two environments answer every
    request alike and stamp the same time; in one the requests complete in
    the order of submission, in the other in the reverse order, so both runs
    collect the same set of successes. Their codec stores the serialized
    text as it is, and the two archives differ: the keys of "data" are in
    the order of completion. *)
Lemma completion_order_changes_archive_text :
  now_isoformat environ_in_order = now_isoformat environ_reversed /\
  (forall req, post environ_in_order req = post environ_reversed req) /\
  Permutation (as_completed environ_in_order combinations)
    (as_completed environ_reversed combinations) /\
  fs (snd (main environ_in_order initial_world))
    !! archive_path_of environ_in_order
  <> fs (snd (main environ_reversed initial_world))
       !! archive_path_of environ_reversed.
Proof.
  split; [reflexivity|]. split; [reflexivity|]. split.
  - apply Permutation_rev.
  - vm_compute. discriminate.
Qed.

(** C4, amended. Two runs that collect the same successful results in the
    same order of completion end their loops with the same [all_data], and
    the texts they serialize differ in the timestamp only: each is the same
    prefix, the timestamp of its run as a JSON string, and the same suffix.
    That text is what each run hands to the codec when it writes its
    archive. *)
Theorem archive_text_differs_in_timestamp_only
    (env1 env2 : environ) (self1 self2 : LeaderboardArchiver)
    (order1 order2 : list (Z * Z * Z)) (results1 results2 : list score_result) :
  Forall2 (fetched env1 self1) order1 results1 ->
  Forall2 (fetched env2 self2) order2 results2 ->
  List.filter is_success results1 = List.filter is_success results2 ->
  exists all_data prefix suffix,
    (forall w, exists successful failed w',
       as_completed_loop self1 order1 ([], 0, 0) env1 w
       = (Ok (all_data, successful, failed), w')) /\
    (forall w, exists successful failed w',
       as_completed_loop self2 order2 ([], 0, 0) env2 w
       = (Ok (all_data, successful, failed), w')) /\
    archive_text env1 all_data
    = prefix ++ encode_basestring_ascii (now_isoformat env1) ++ suffix /\
    archive_text env2 all_data
    = prefix ++ encode_basestring_ascii (now_isoformat env2) ++ suffix /\
    (forall w, first_fault env1 = None ->
       fs (snd (compress_and_save_archive self1 all_data env1 w))
         !! archive_path_of env1
       = Some (lzma_compress env1 (archive_text env1 all_data))) /\
    (forall w, first_fault env2 = None ->
       fs (snd (compress_and_save_archive self2 all_data env2 w))
         !! archive_path_of env2
       = Some (lzma_compress env2 (archive_text env2 all_data))).
Proof.
  intros Hres1 Hres2 Hsame.
  assert (Hdoc : aggregated_document results1 = aggregated_document results2)
    by now rewrite !aggregated_document_successes, Hsame.
  assert (Hloop : forall env self order results,
            Forall2 (fetched env self) order results ->
            forall w, exists successful failed w',
              as_completed_loop self order ([], 0, 0) env w
              = (Ok (aggregated_document results, successful, failed), w')).
  { intros env self order results Hres w.
    destruct (as_completed_loop_fetched env self order results Hres
                ([], 0, 0) w) as [w' Hrun].
    fold (aggregate results) in Hrun. unfold aggregated_document.
    destruct (aggregate results) as [[all_data s] f].
    exists s, f, w'. exact Hrun. }
  assert (Hfile : forall env self all_data w,
            first_fault env = None ->
            fs (snd (compress_and_save_archive self all_data env w))
              !! archive_path_of env
            = Some (lzma_compress env (archive_text env all_data))).
  { intros env self all_data w Hf.
    rewrite (compress_and_save_archive_ok env self all_data w Hf).
    cbn [snd fs]. apply lookup_insert_eq. }
  exists (aggregated_document results1),
         ([123%N] ++ encode_basestring_ascii (lit "timestamp") ++ [58%N]),
         ([44%N] ++ encode_basestring_ascii (lit "data") ++ [58%N]
          ++ json_dumps (json_of_dict (aggregated_document results1))
          ++ [125%N]).
  split; [exact (Hloop env1 self1 order1 results1 Hres1)|].
  split; [rewrite Hdoc; exact (Hloop env2 self2 order2 results2 Hres2)|].
  split; [apply archive_text_shape|].
  split; [apply archive_text_shape|].
  split; intros w Hf; apply Hfile; exact Hf.
Qed.

Lemma example_service_fetched_success ct pt :
  fetched (environ_with_post example_service) example_archiver (1, ct, pt)
    (Success (1, ct, pt) (lit "[]")) /\
  fetched environ_later example_archiver (1, ct, pt)
    (Success (1, ct, pt) (lit "[]")).
Proof. split; intros w; now rewrite get_scores_run. Qed.

Lemma archive_text_differs_in_timestamp_only_witness :
  exists all_data prefix suffix,
    (forall w, exists successful failed w',
       as_completed_loop example_archiver [(1, 0, 1); (2, 0, 1); (1, 0, 2)]
         ([], 0, 0) (environ_with_post example_service) w
       = (Ok (all_data, successful, failed), w')) /\
    (forall w, exists successful failed w',
       as_completed_loop example_archiver [(1, 0, 1); (1, 0, 2); (3, 0, 1)]
         ([], 0, 0) environ_later w
       = (Ok (all_data, successful, failed), w')) /\
    archive_text (environ_with_post example_service) all_data
    = prefix ++ encode_basestring_ascii (lit "2025-01-02T03:04:05.678901")
      ++ suffix /\
    archive_text environ_later all_data
    = prefix ++ encode_basestring_ascii (lit "2025-01-03T00:00:00")
      ++ suffix.
Proof.
  destruct (archive_text_differs_in_timestamp_only
              (environ_with_post example_service) environ_later
              example_archiver example_archiver
              [(1, 0, 1); (2, 0, 1); (1, 0, 2)]
              [(1, 0, 1); (1, 0, 2); (3, 0, 1)]
              [Success (1, 0, 1) (lit "[]");
               Failure (2, 0, 1)
                 (lit "Request failed: 'ClientResponse' object has no attribute 'statusText'");
               Success (1, 0, 2) (lit "[]")]
              [Success (1, 0, 1) (lit "[]"); Success (1, 0, 2) (lit "[]");
               Failure (3, 0, 1) (lit "Request failed: Cannot connect to host")])
    as (all_data & prefix & suffix & H1 & H2 & H3 & H4 & _).
  - repeat constructor; try apply example_service_fetched_success;
      intros w; now rewrite get_scores_run.
  - repeat constructor; try apply example_service_fetched_success;
      intros w; now rewrite get_scores_run.
  - reflexivity.
  - exists all_data, prefix, suffix. exact (conj H1 (conj H2 (conj H3 H4))).
Defined.




(** ** What a run leaves alone *)

Section Frames.

Variable env : environ.
Variable self : LeaderboardArchiver.

(** The whole effect of the loop, when requests fail at transport level
    only: the results are consumed, the lines logged, the requests sent. *)
Lemma as_completed_loop_trace order st w :
  transport_level_failures env ->
  exists results,
    Forall2 (fetched env self) order results /\
    as_completed_loop self order st env w
    = (Ok (fold_left consume_state results st),
       World (fs w) (dirs w) (log w ++ loop_log results st)
         (requests w ++ map (request_of self) order)).
Proof.
  intros Ht. revert st w.
  induction order as [|d order IH]; intros st w.
  - exists []. split; [constructor|]. cbn. rewrite !app_nil_r.
    now destruct w.
  - destruct (get_scores_outcome_total env self d Ht) as [r Hr].
    destruct (IH (consume_state st r)
                 (logged (requested w [request_of self d]) (consume_log st r)))
      as (results & Hres & Hrun).
    exists (r :: results). split.
    + constructor; [|exact Hres]. intros w0. now rewrite get_scores_run.
    + cbn [as_completed_loop fold_left loop_log map]. unfold bind.
      rewrite get_scores_run, Hr, consume_run, Hrun.
      cbn [logged requested fs dirs log requests].
      now rewrite <- !app_assoc.
Qed.

(** Whatever happens, [compress_and_save_archive] sends no request, keeps
    the log it found, changes no file but the archive of the day and no
    directory but ["archives"]. *)
Lemma compress_and_save_archive_frame all_data w :
  requests (snd (compress_and_save_archive self all_data env w)) = requests w
  /\
  (forall p, p <> archive_path_of env ->
     fs (snd (compress_and_save_archive self all_data env w)) !! p
     = fs w !! p) /\
  (dirs (snd (compress_and_save_archive self all_data env w)) = dirs w \/
   dirs (snd (compress_and_save_archive self all_data env w))
   = {[lit "archives"]} ∪ dirs w).
Proof.
  unfold compress_and_save_archive, try_except, bind, datetime_now_isoformat,
    lift, os_makedirs, datetime_now_strftime_Ymd, os_path_join,
    lzma_open_write, os_path_getsize, logger_info, logger_error, ret, raise,
    except_Exception.
  fold (archive_text env all_data). fold (archive_path_of env).
  rewrite archive_text_encoded.
  destruct (makedirs_fault env) as [e1|];
    [destruct (is_Exception e1); cbn; auto|].
  destruct (lzma_write_fault env) as [[e2 [partial|]]|];
    cbn [fs dirs log requests].
  - destruct (is_Exception e2); cbn [snd fs dirs log requests];
      (split; [reflexivity|split; [|auto]]);
      intros p Hp; now rewrite lookup_insert_ne.
  - destruct (is_Exception e2); cbn; auto.
  - destruct (getsize_fault env) as [e3|].
    + destruct (is_Exception e3); cbn [snd fs dirs log requests];
        (split; [reflexivity|split; [|auto]]);
        intros p Hp; now rewrite lookup_insert_ne.
    + rewrite lookup_insert_eq, archive_text_size.
      cbn [snd fs dirs log requests].
      split; [reflexivity|split; [|auto]].
      intros p Hp. now rewrite lookup_insert_ne.
Qed.

(** [archive_all_combinations], case by case. *)
Lemma archive_all_combinations_cases w :
  archive_all_combinations self env w
  = match as_completed_loop self (as_completed env combinations) ([], 0, 0)
            env (logged w [starting_line]) with
    | (Raise e, w1) => (Raise e, w1)
    | (Ok (all_data, successful, failed), w1) =>
        if successful >? 0 then
          match compress_and_save_archive self all_data env w1 with
          | (Ok archive_path, w2) =>
              (Ok tt, logged w2 [archive_saved_to_line archive_path;
                                 summary_line successful failed])
          | (Raise e, w2) => (Raise e, w2)
          end
        else
          (Ok tt, logged w1 [no_success_line; summary_line successful failed])
    end.
Proof.
  destruct (as_completed_loop self (as_completed env combinations) ([], 0, 0)
              env (logged w [starting_line]))
    as [[[[all_data s] f]|e] w1] eqn:Hloop.
  - now apply archive_all_combinations_run.
  - unfold archive_all_combinations, bind at 1 2 3, logger_info at 1,
      asyncio_as_completed.
    fold starting_line. change (World _ _ _ _) with (logged w [starting_line]).
    now rewrite Hloop.
Qed.

(** The same for [archive_all_combinations], whatever the environment. *)
Lemma archive_all_combinations_frame w :
  (forall p, p <> archive_path_of env ->
     fs (snd (archive_all_combinations self env w)) !! p = fs w !! p) /\
  (dirs (snd (archive_all_combinations self env w)) = dirs w \/
   dirs (snd (archive_all_combinations self env w))
   = {[lit "archives"]} ∪ dirs w).
Proof.
  rewrite archive_all_combinations_cases.
  destruct (as_completed_loop_files env self (as_completed env combinations)
              ([], 0, 0) (logged w [starting_line])) as [Hfs Hdirs].
  cbn [logged fs dirs] in Hfs, Hdirs.
  destruct (as_completed_loop self (as_completed env combinations)
              ([], 0, 0) env _) as [[[[all_data s] f]|e] w1];
    cbn [snd] in Hfs, Hdirs;
    [|cbn [snd]; split; [now rewrite Hfs|now left]].
  destruct (s >? 0).
  - destruct (compress_and_save_archive_frame all_data w1)
      as (_ & Hfs2 & Hdirs2).
    destruct (compress_and_save_archive self all_data env w1)
      as [[path|e] w2]; cbn [snd logged fs dirs] in *;
      rewrite <- Hfs, <- Hdirs; auto.
  - cbn [snd logged fs dirs]. rewrite Hfs, Hdirs. auto.
Qed.

End Frames.

(** ** [main], as a whole *)

Section Main.

Variable env : environ.

(** [main], case by case. *)
Lemma main_cases w :
  main env w
  = if truthy (getenv env (lit "USER_TOKEN"))
       && truthy (getenv env (lit "DB_LINK"))
    then
      match archive_all_combinations (configured_archiver env) env w with
      | (Ok a, w') => (Ok a, w')
      | (Raise e, w') =>
          if is_ValueError e then
            (Ok tt, logged w' [configuration_error_line e])
          else if is_Exception e then
            (Ok tt, logged w' [unexpected_error_line e])
          else (Raise e, w')
      end
    else
      (Ok tt, logged w [configuration_error_line
                          (Exn ValueError missing_variables_message)]).
Proof.
  unfold main, try_except, bind at 1.
  rewrite LeaderboardArchiver_init_run.
  destruct (truthy (getenv env (lit "USER_TOKEN"))
            && truthy (getenv env (lit "DB_LINK"))).
  - fold (configured_archiver env).
    destruct (archive_all_combinations (configured_archiver env) env w)
      as [[a|e] w']; [reflexivity|].
    destruct (is_ValueError e); [reflexivity|].
    destruct (is_Exception e); reflexivity.
  - reflexivity.
Qed.

(** With failures of the transport and of the file system that derive from
    [Exception], [archive_all_combinations] returns: the loop has consumed
    every result, and the last line of the log is the summary. *)
Lemma archive_all_combinations_total (self : LeaderboardArchiver) w :
  transport_level_failures env ->
  io_level_failures env ->
  exists results tail,
    Forall2 (fetched env self) (as_completed env combinations) results /\
    archive_all_combinations self env w
    = (Ok tt,
       World (fs (snd (archive_all_combinations self env w)))
         (dirs (snd (archive_all_combinations self env w)))
         (log w ++ [starting_line] ++ loop_log results ([], 0, 0) ++ tail
          ++ [summary_line
                (Z.of_nat (length (List.filter is_success results)))
                (Z.of_nat (length results)
                 - Z.of_nat (length (List.filter is_success results)))])
         (requests w
          ++ map (request_of self) (as_completed env combinations))).
Proof.
  intros Ht Hio.
  destruct (as_completed_loop_trace env self (as_completed env combinations)
              ([], 0, 0) (logged w [starting_line]) Ht)
    as (results & Hres & Hrun).
  rewrite archive_all_combinations_cases, Hrun.
  rewrite fold_consume_state. cbn [logged fs dirs log requests].
  rewrite !Z.add_0_l.
  exists results.
  destruct (Z.of_nat (length (List.filter is_success results)) >? 0).
  - set (w1 := World _ _ _ _).
    set (all_data := fold_left _ _ _).
    destruct (first_fault env) as [e|] eqn:Hf.
    + destruct (compress_and_save_archive_fault env self all_data w1 e Hf)
        as (w2 & Hc & Hlog & Hreq).
      rewrite (Hio e Hf) in Hc, Hlog. rewrite Hc.
      exists [write_failure_line e; archive_saved_to_line None].
      split; [exact Hres|]. cbn [snd logged fs dirs log requests].
      unfold logged. rewrite Hlog, Hreq. unfold w1. cbn [log requests].
      now rewrite <- !app_assoc.
    + rewrite (compress_and_save_archive_ok env self all_data w1 Hf).
      exists [(INFO, Text (lit "LZMA archive saved: " ++ archive_path_of env));
              (INFO, CompressionStats
                       (Z.of_nat (length (archive_text env all_data)))
                       (Z.of_nat (length (lzma_compress env
                                            (archive_text env all_data)))));
              archive_saved_to_line (Some (archive_path_of env))].
      split; [exact Hres|].
      unfold logged, w1. cbn [snd fs dirs log requests].
      rewrite <- !app_assoc. reflexivity.
  - exists [no_success_line]. split; [exact Hres|].
    unfold logged. cbn [snd fs dirs log requests].
    rewrite <- !app_assoc. reflexivity.
Qed.

End Main.

(** ** Properties of a whole run *)

Lemma request_of_inj self d1 d2 : request_of self d1 = request_of self d2 -> d1 = d2.
Proof. unfold request_of. now intros [= ->]. Qed.

(** X1. With both variables set, failures of the transport only, and every
    task completing once, a run of [main] sends one request for each of the
    240 combinations and no other, whatever becomes of the archive: each
    goes to DB_LINK followed by "/api/getScores", with the token as
    [Authorization] header and the descriptor as body. The requests of the
    run are pairwise distinct, 240 in number, and up to their order they
    are the requests of the combinations; the order in which they go out is
    not stated. *)
Theorem main_sends_one_request_per_combination (env : environ) (w : world) :
  configured env ->
  transport_level_failures env ->
  Permutation (as_completed env combinations) combinations ->
  exists sent,
    requests (snd (main env w)) = requests w ++ sent /\
    Permutation sent
      (map (request_of (configured_archiver env)) combinations) /\
    length sent = 240%nat /\
    List.NoDup sent.
Proof.
  intros Hc Ht Hperm.
  exists (map (request_of (configured_archiver env))
            (as_completed env combinations)).
  split; [|split; [|split]].
  - rewrite main_cases. unfold configured in Hc. rewrite Hc.
    set (self := configured_archiver env).
    rewrite archive_all_combinations_cases.
    destruct (as_completed_loop_trace env self (as_completed env combinations)
                ([], 0, 0) (logged w [starting_line]) Ht)
      as (results & _ & Hrun).
    rewrite Hrun.
    destruct (fold_left consume_state results ([], 0, 0)) as [[all_data s] f].
    destruct (s >? 0); [|reflexivity].
    set (w1 := World _ _ _ _).
    destruct (compress_and_save_archive_frame env self all_data w1)
      as (Hreq & _).
    destruct (compress_and_save_archive self all_data env w1)
      as [[path|e] w2]; cbn [snd] in Hreq.
    + cbn [snd logged requests]. now rewrite Hreq.
    + destruct (is_ValueError e); [cbn [snd logged requests]; now rewrite Hreq|].
      destruct (is_Exception e); cbn [snd logged requests]; now rewrite Hreq.
  - now apply Permutation_map.
  - rewrite length_map, (Permutation_length Hperm). reflexivity.
  - apply Injective_map_NoDup.
    + intros d1 d2. apply request_of_inj.
    + now apply completion_order_NoDup.
Qed.

Lemma main_sends_one_request_per_combination_witness :
  exists sent,
    requests (snd (main environ_reversed initial_world))
    = requests initial_world ++ sent /\
    Permutation sent
      (map (request_of (configured_archiver environ_reversed)) combinations)
    /\
    length sent = 240%nat /\
    List.NoDup sent.
Proof.
  apply (main_sends_one_request_per_combination environ_reversed
           initial_world).
  - reflexivity.
  - intros req. split.
    + intros e [=].
    + intros resp [= <-] e [=].
  - apply Permutation_sym, Permutation_rev.
Defined.

(** X2. With both variables set and failures of the transport and of the
    file system that derive from [Exception], [main] returns without
    raising, and the last line of its log is the summary: the number of
    successful results and the number of the others, which add up to the
    number of tasks completed. *)
Theorem main_ends_with_the_summary (env : environ) (w : world) :
  configured env ->
  transport_level_failures env ->
  io_level_failures env ->
  exists results earlier w',
    Forall2 (fetched env (configured_archiver env))
      (as_completed env combinations) results /\
    main env w = (Ok tt, w') /\
    log w' = log w ++ earlier
             ++ [summary_line
                   (Z.of_nat (length (List.filter is_success results)))
                   (Z.of_nat (length (List.filter
                                        (fun r => negb (is_success r))
                                        results)))] /\
    (length (List.filter is_success results)
     + length (List.filter (fun r => negb (is_success r)) results)
     = length (as_completed env combinations))%nat.
Proof.
  intros Hc Ht Hio.
  destruct (archive_all_combinations_total env (configured_archiver env) w
              Ht Hio) as (results & tail & Hres & Hrun).
  assert (Hsplit :
    (length (List.filter is_success results)
     + length (List.filter (fun r => negb (is_success r)) results)
     = length results)%nat).
  { clear. induction results as [|r results IH]; cbn; [reflexivity|].
    destruct (is_success r); cbn; lia. }
  assert (Hlen : length results = length (as_completed env combinations)).
  { rewrite <- (fetched_descriptors env _ _ _ Hres). now rewrite length_map. }
  exists results, ([starting_line] ++ loop_log results ([], 0, 0) ++ tail).
  eexists. split; [exact Hres|]. split.
  - rewrite main_cases. unfold configured in Hc. rewrite Hc, Hrun.
    reflexivity.
  - split; [|lia]. cbn [log].
    replace (Z.of_nat (length (List.filter (fun r => negb (is_success r))
                                 results)))
      with (Z.of_nat (length results)
            - Z.of_nat (length (List.filter is_success results))) by lia.
    now rewrite <- !app_assoc.
Qed.

Lemma main_ends_with_the_summary_witness :
  exists results earlier w',
    Forall2 (fetched environ_disk_full (configured_archiver environ_disk_full))
      (as_completed environ_disk_full combinations) results /\
    main environ_disk_full initial_world = (Ok tt, w') /\
    log w' = log initial_world ++ earlier
             ++ [summary_line
                   (Z.of_nat (length (List.filter is_success results)))
                   (Z.of_nat (length (List.filter
                                        (fun r => negb (is_success r))
                                        results)))] /\
    (length (List.filter is_success results)
     + length (List.filter (fun r => negb (is_success r)) results)
     = length (as_completed environ_disk_full combinations))%nat.
Proof.
  apply (main_ends_with_the_summary environ_disk_full initial_world).
  - reflexivity.
  - intros req. split.
    + intros e [=].
    + intros resp [= <-] e [=].
  - intros e [= <-]. reflexivity.
Defined.

(** X7. Whatever the environment does, a run of [main] changes no file
    other than the archive of the day, and creates no directory other than
    ["archives"]. *)
Theorem main_changes_only_the_archive (env : environ) (w : world) (p : pystr) :
  p <> archive_path_of env ->
  fs (snd (main env w)) !! p = fs w !! p /\
  (dirs (snd (main env w)) = dirs w \/
   dirs (snd (main env w)) = {[lit "archives"]} ∪ dirs w).
Proof.
  intros Hp. rewrite main_cases.
  destruct (truthy (getenv env (lit "USER_TOKEN"))
            && truthy (getenv env (lit "DB_LINK"))); [|cbn; auto].
  destruct (archive_all_combinations_frame env (configured_archiver env) w)
    as [Hfs Hdirs].
  specialize (Hfs p Hp).
  destruct (archive_all_combinations (configured_archiver env) env w)
    as [[a|e] w']; cbn [snd] in *; [auto|].
  destruct (is_ValueError e); [cbn [snd logged fs dirs]; auto|].
  destruct (is_Exception e); cbn [snd logged fs dirs]; auto.
Qed.

Lemma main_changes_only_the_archive_witness :
  fs (snd (main environ_in_order
             (World {[lit "notes.txt" := [104; 105]%N]} ∅ [] [])))
    !! lit "notes.txt"
  = Some [104; 105]%N.
Proof.
  assert (Hp : lit "notes.txt" <> archive_path_of environ_in_order)
    by discriminate.
  rewrite (proj1 (main_changes_only_the_archive environ_in_order
                    (World {[lit "notes.txt" := [104; 105]%N]} ∅ [] [])
                    (lit "notes.txt") Hp)).
  cbn [fs]. apply lookup_singleton_eq.
Defined.

(** ** What the loop logs *)

Section LoopLog.

Lemma consume_log_lines all_data s f r :
  consume_log (all_data, s, f) r
  = (if is_success r then [] else [failure_line r])
    ++ (if (s + f + 1) mod 20 =? 0 then [progress_line (s + f + 1)] else []).
Proof. reflexivity. Qed.

Lemma consume_state_progress all_data s f r :
  exists all_data' s' f',
    consume_state (all_data, s, f) r = (all_data', s', f') /\
    s' + f' = s + f + 1.
Proof.
  rewrite consume_state_cases.
  destruct (is_success r); do 3 eexists; (split; [reflexivity|lia]).
Qed.

(** The error lines of the loop: one per result that is not a success, in
    the order of arrival. *)
Lemma loop_log_errors results st :
  List.filter is_error_line (loop_log results st)
  = map failure_line (List.filter (fun r => negb (is_success r)) results).
Proof.
  revert st. induction results as [|r results IH]; intros [[all_data s] f];
    [reflexivity|].
  cbn [loop_log List.filter]. rewrite consume_log_lines, !List.filter_app, IH.
  destruct (is_success r), ((s + f + 1) mod 20 =? 0); reflexivity.
Qed.

(** The other lines of the loop: one after each result whose rank is a
    multiple of 20. *)
Lemma loop_log_infos results all_data s f :
  List.filter is_info_line (loop_log results (all_data, s, f))
  = map progress_line
      (List.filter (fun n => n mod 20 =? 0)
         (map (fun i => s + f + Z.of_nat i) (seq 1 (length results)))).
Proof.
  revert all_data s f.
  induction results as [|r results IH]; intros all_data s f; [reflexivity|].
  cbn [loop_log length seq map List.filter].
  destruct (consume_state_progress all_data s f r)
    as (all_data' & s' & f' & -> & Hsum).
  rewrite consume_log_lines, !List.filter_app, IH, Hsum.
  assert (Hseq :
    map (fun i => s + f + Z.of_nat i) (seq 2 (length results))
    = map (fun i => s + f + 1 + Z.of_nat i) (seq 1 (length results))).
  { rewrite <- (seq_shift (length results) 1), map_map.
    apply map_ext. intros i. lia. }
  rewrite Hseq.
  replace (s + f + Z.of_nat 1) with (s + f + 1) by lia.
  destruct (is_success r), ((s + f + 1) mod 20 =? 0); reflexivity.
Qed.

Lemma div_20_succ (n : nat) :
  (Z.of_nat (S n) mod 20 = 0 -> (S n / 20 = S (n / 20))%nat) /\
  (Z.of_nat (S n) mod 20 <> 0 -> (S n / 20 = n / 20)%nat) /\
  (Z.of_nat (S n) mod 20 = 0 ->
   Z.of_nat (S n) = 20 * Z.of_nat (S (n / 20)%nat)).
Proof.
  assert (E1 : Z.of_nat (S n / 20) = Z.of_nat (S n) / 20)
    by apply (Nat2Z.inj_div (S n) 20).
  assert (E2 : Z.of_nat (n / 20) = Z.of_nat n / 20)
    by apply (Nat2Z.inj_div n 20).
  assert (E3 : Z.of_nat (S n) = Z.of_nat n + 1) by lia.
  repeat split; intros Hm; try apply Nat2Z.inj;
    rewrite ?Nat2Z.inj_succ, ?E1, ?E2, ?E3 in *;
    clear E1 E2 E3; Z.to_euclidean_division_equations; lia.
Qed.

(** The multiples of 20 among the first [n] ranks. *)
Lemma multiples_of_20 (n : nat) :
  List.filter (fun k => k mod 20 =? 0) (map Z.of_nat (seq 1 n))
  = map (fun j => 20 * Z.of_nat j) (seq 1 (n / 20)).
Proof.
  induction n as [|n IH]; [reflexivity|].
  rewrite seq_S, map_app, List.filter_app, IH. cbn [map List.filter].
  replace (1 + n)%nat with (S n) by lia.
  destruct (div_20_succ n) as (Hq1 & Hq2 & Hv).
  destruct (Z.eqb_spec (Z.of_nat (S n) mod 20) 0) as [Hm|Hm].
  - rewrite (Hq1 Hm), seq_S, map_app. cbn [map].
    replace (1 + n / 20)%nat with (S (n / 20)) by lia.
    now rewrite (Hv Hm).
  - now rewrite (Hq2 Hm), app_nil_r.
Qed.

End LoopLog.

(** X4. With failures of the transport only, the loop logs one error line
    for each result that is not a success, in the order of arrival, and no
    other error: the line names the combination and gives the message of the
    result. *)
Theorem loop_logs_each_failure_once
    (env : environ) (self : LeaderboardArchiver) (order : list (Z * Z * Z))
    (w : world) :
  transport_level_failures env ->
  exists results lines st w',
    Forall2 (fetched env self) order results /\
    as_completed_loop self order ([], 0, 0) env w = (Ok st, w') /\
    log w' = log w ++ lines /\
    List.filter is_error_line lines
    = map failure_line (List.filter (fun r => negb (is_success r)) results).
Proof.
  intros Ht.
  destruct (as_completed_loop_trace env self order ([], 0, 0) w Ht)
    as (results & Hres & Hrun).
  exists results, (loop_log results ([], 0, 0)). do 2 eexists.
  split; [exact Hres|]. split; [exact Hrun|].
  split; [reflexivity|apply loop_log_errors].
Qed.

Lemma loop_logs_each_failure_once_witness :
  exists results lines st w',
    Forall2 (fetched (environ_with_post example_service) example_archiver)
      [(1, 0, 1); (2, 0, 1); (5, 1, 1)] results /\
    as_completed_loop example_archiver [(1, 0, 1); (2, 0, 1); (5, 1, 1)]
      ([], 0, 0) (environ_with_post example_service) initial_world
    = (Ok st, w') /\
    log w' = log initial_world ++ lines /\
    List.filter is_error_line lines
    = map failure_line (List.filter (fun r => negb (is_success r)) results).
Proof.
  exact (loop_logs_each_failure_once (environ_with_post example_service)
           example_archiver [(1, 0, 1); (2, 0, 1); (5, 1, 1)] initial_world
           example_service_transport_level).
Defined.

(** X5. With failures of the transport only, the loop logs a progress line
    after every twentieth result, successful or not, and no other line at
    that level: over [n] results these are the lines for 20, 40, ... up to
    the largest multiple of 20 that is at most [n]. *)
Theorem loop_logs_progress_every_20
    (env : environ) (self : LeaderboardArchiver) (order : list (Z * Z * Z))
    (w : world) :
  transport_level_failures env ->
  exists lines st w',
    as_completed_loop self order ([], 0, 0) env w = (Ok st, w') /\
    log w' = log w ++ lines /\
    List.filter is_info_line lines
    = map (fun j => progress_line (20 * Z.of_nat j))
        (seq 1 (length order / 20)).
Proof.
  intros Ht.
  destruct (as_completed_loop_trace env self order ([], 0, 0) w Ht)
    as (results & Hres & Hrun).
  exists (loop_log results ([], 0, 0)). do 2 eexists.
  split; [exact Hrun|]. split; [reflexivity|].
  rewrite loop_log_infos.
  rewrite (map_ext (fun i => 0 + 0 + Z.of_nat i) Z.of_nat) by (intros; lia).
  assert (Hlen : length results = length order).
  { rewrite <- (fetched_descriptors env self _ _ Hres). now rewrite length_map. }
  now rewrite Hlen, multiples_of_20, map_map.
Qed.

Lemma loop_logs_progress_every_20_witness :
  exists lines st w',
    as_completed_loop example_archiver combinations ([], 0, 0)
      (environ_with_post example_service) initial_world = (Ok st, w') /\
    log w' = log initial_world ++ lines /\
    List.filter is_info_line lines
    = map (fun j => progress_line (20 * Z.of_nat j))
        (seq 1 (length combinations / 20)).
Proof.
  exact (loop_logs_progress_every_20 (environ_with_post example_service)
           example_archiver combinations initial_world
           example_service_transport_level).
Defined.

(** ** Looking up the aggregated document *)

Section DictionaryLookup.

Context {V : Type}.

(** [d[k'] = v] then [d.get(k)]. *)
Lemma dict_get_set (k k' : pystr) (v : V) (d : pydict V) :
  dict_get k (dict_set k' v d)
  = if decide (k' = k) then Some v else dict_get k d.
Proof.
  induction d as [|[k0 v0] d IH]; cbn [dict_set dict_get].
  - reflexivity.
  - destruct (decide (k0 = k')) as [->|Hne]; cbn [dict_get].
    + destruct (decide (k' = k)); reflexivity.
    + rewrite IH. destruct (decide (k0 = k)) as [->|]; [|reflexivity].
      now rewrite decide_False.
Qed.

Lemma dict_get_app (k : pystr) (d d' : pydict V) :
  dict_get k (d ++ d')
  = match dict_get k d with
    | Some v => Some v
    | None => dict_get k d'
    end.
Proof.
  induction d as [|[k0 v0] d IH]; cbn [app dict_get]; [reflexivity|].
  destruct (decide (k0 = k)); [reflexivity|exact IH].
Qed.

(** After a series of assignments, a key holds the value of the last
    assignment to it. *)
Lemma dict_get_fold (k : pystr) (items acc : pydict V) :
  dict_get k (fold_left (fun d kv => dict_set (fst kv) (snd kv) d) items acc)
  = match dict_get k (rev items) with
    | Some v => Some v
    | None => dict_get k acc
    end.
Proof.
  revert acc. induction items as [|[k0 v0] items IH]; intros acc;
    [reflexivity|].
  cbn [fold_left rev fst snd]. rewrite IH, dict_get_app, dict_get_set.
  cbn [dict_get].
  destruct (dict_get k (rev items)); [reflexivity|].
  destruct (decide (k0 = k)); reflexivity.
Qed.

Lemma dict_get_Some_In (k : pystr) (v : V) (d : pydict V) :
  dict_get k d = Some v -> In (k, v) d.
Proof.
  induction d as [|[k0 v0] d IH]; cbn [dict_get]; [discriminate|].
  destruct (decide (k0 = k)) as [->|].
  - intros [= ->]. now left.
  - intros H. right. auto.
Qed.

Lemma In_dict_get (k : pystr) (v : V) (d : pydict V) :
  In (k, v) d -> exists v', dict_get k d = Some v'.
Proof.
  induction d as [|[k0 v0] d IH]; cbn [dict_get]; [intros []|].
  intros [[= -> ->]|Hin].
  - rewrite decide_True by reflexivity. eauto.
  - destruct (decide (k0 = k)); eauto.
Qed.

(** Where no key has two values, a lookup finds exactly the items. *)
Lemma dict_get_functional (k : pystr) (v : V) (d : pydict V) :
  functional_items d -> (dict_get k d = Some v <-> In (k, v) d).
Proof.
  intros Hfun. split; [apply dict_get_Some_In|].
  intros Hin. destruct (In_dict_get k v d Hin) as [v' Hv'].
  rewrite Hv'. f_equal.
  apply (Hfun k v' v); [now apply dict_get_Some_In|exact Hin].
Qed.

Lemma dict_of_pairs_lookup (k : pystr) (v : V) (items : pydict V) :
  functional_items items ->
  (dict_get k (dict_of_pairs items) = Some v <-> In (k, v) items).
Proof.
  intros Hfun. unfold dict_of_pairs. rewrite dict_get_fold. cbn [dict_get].
  assert (Hrev : functional_items (rev items)).
  { intros k0 v0 v0' H1 H2. apply in_rev in H1, H2. eauto. }
  rewrite (in_rev items).
  rewrite <- (dict_get_functional k v (rev items) Hrev).
  destruct (dict_get k (rev items)); split; congruence.
Qed.

End DictionaryLookup.

Section FetchedResults.

Variable env : environ.
Variable self : LeaderboardArchiver.

Lemma fetched_functional d r r' :
  fetched env self d r -> fetched env self d r' -> r = r'.
Proof.
  intros H H'. specialize (H initial_world). specialize (H' initial_world).
  congruence.
Qed.

(** A successful result is the Success dictionary of its descriptor. *)
Lemma fetched_success d r :
  fetched env self d r -> is_success r = true ->
  exists body, r = Success d body.
Proof.
  intros H Hs. specialize (H initial_world).
  rewrite get_scores_run in H. cbn [fst] in H.
  destruct d as [[dt ct] pt]. unfold get_scores_outcome in H.
  destruct (post env _) as [resp|e].
  - destruct (status resp =? 200).
    + destruct (text resp) as [body|e].
      * injection H as <-. eauto.
      * destruct (is_Exception e); [|discriminate H].
        injection H as <-. discriminate Hs.
    + destruct (statusText resp); injection H as <-; discriminate Hs.
  - destruct (is_Exception e); [|discriminate H].
    injection H as <-. discriminate Hs.
Qed.

Lemma Forall2_left_inv {A B} (P : A -> B -> Prop) (l : list A) (l' : list B) :
  Forall2 P l l' -> forall a, In a l -> exists b, In b l' /\ P a b.
Proof.
  induction 1 as [|a b l l' Hab _ IH]; intros a0 Hin; [destruct Hin|].
  destruct Hin as [<-|Hin].
  - exists b. split; [now left|exact Hab].
  - destruct (IH a0 Hin) as (b0 & Hb0 & HP). exists b0. split; [now right|auto].
Qed.

(** The items of the successes of fetched results: no key has two
    values. *)
Lemma success_items_functional order results :
  Forall2 (fetched env self) order results ->
  functional_items (map item_of (List.filter is_success results)).
Proof.
  intros Hres k v v' H1 H2.
  apply in_map_iff in H1 as (r1 & E1 & Hr1).
  apply in_map_iff in H2 as (r2 & E2 & Hr2).
  apply filter_In in Hr1 as [Hr1 _]. apply filter_In in Hr2 as [Hr2 _].
  destruct (Forall2_right_inv _ _ _ Hres r1 Hr1) as (d1 & _ & Hd1).
  destruct (Forall2_right_inv _ _ _ Hres r2 Hr2) as (d2 & _ & Hd2).
  pose proof (fetched_descriptor env self d1 r1 Hd1) as Hdesc1.
  pose proof (fetched_descriptor env self d2 r2 Hd2) as Hdesc2.
  pose proof (f_equal fst E1) as Hk1. pose proof (f_equal snd E1) as Hv1.
  pose proof (f_equal fst E2) as Hk2. pose proof (f_equal snd E2) as Hv2.
  unfold item_of in Hk1, Hv1, Hk2, Hv2. cbn [fst snd] in Hk1, Hv1, Hk2, Hv2.
  rewrite Hdesc1 in Hk1. rewrite Hdesc2 in Hk2.
  assert (Hd : d2 = d1) by (apply combination_key_inj; congruence).
  rewrite Hd in Hd2.
  rewrite (fetched_functional d1 r1 r2 Hd1 Hd2) in Hv1. congruence.
Qed.

End FetchedResults.

(** X3. With failures of the transport only, after the loop [all_data]
    holds an entry under the key of a descriptor exactly when a request for
    that descriptor was made and succeeded, and the entry is the body of
    the response, as it was received; a descriptor whose request failed,
    or that was not requested, has no entry. This holds also when a
    descriptor is requested more than once. *)
Theorem all_data_holds_the_successful_bodies
    (env : environ) (self : LeaderboardArchiver) (order : list (Z * Z * Z))
    (w : world) :
  transport_level_failures env ->
  exists all_data successful failed w',
    as_completed_loop self order ([], 0, 0) env w
    = (Ok (all_data, successful, failed), w') /\
    forall d body,
      dict_get (combination_key d) all_data = Some body <->
      In d order /\ fetched env self d (Success d body).
Proof.
  intros Ht.
  destruct (as_completed_loop_trace env self order ([], 0, 0) w Ht)
    as (results & Hres & Hrun).
  rewrite fold_consume_state in Hrun.
  do 4 eexists. split; [exact Hrun|].
  intros d body.
  fold (dict_of_pairs (map item_of (List.filter is_success results))).
  rewrite dict_of_pairs_lookup
    by (eapply success_items_functional; exact Hres).
  rewrite in_map_iff. split.
  - intros (r & Hitem & Hr). apply filter_In in Hr as [Hr Hs].
    destruct (Forall2_right_inv _ _ _ Hres r Hr) as (d0 & Hd0 & Hfetch).
    destruct (fetched_success env self d0 r Hfetch Hs) as [body0 ->].
    destruct d0 as [[dt ct] pt]. cbn in Hitem. injection Hitem as Hk ->.
    apply (combination_key_inj (dt, ct, pt) d) in Hk. subst d.
    split; assumption.
  - intros [Hin Hfetch].
    destruct (Forall2_left_inv _ _ _ Hres d Hin) as (r & Hr & Hfetch').
    rewrite (fetched_functional env self d _ _ Hfetch' Hfetch) in Hr.
    exists (Success d body). destruct d as [[dt ct] pt].
    split; [reflexivity|]. apply filter_In. split; [exact Hr|reflexivity].
Qed.

Lemma all_data_holds_the_successful_bodies_witness :
  exists all_data successful failed w',
    as_completed_loop example_archiver
      [(1, 0, 1); (2, 0, 1); (1, 0, 1); (5, 1, 1)] ([], 0, 0)
      (environ_with_post example_service) initial_world
    = (Ok (all_data, successful, failed), w') /\
    forall d body,
      dict_get (combination_key d) all_data = Some body <->
      In d [(1, 0, 1); (2, 0, 1); (1, 0, 1); (5, 1, 1)] /\
      fetched (environ_with_post example_service) example_archiver d
        (Success d body).
Proof.
  exact (all_data_holds_the_successful_bodies
           (environ_with_post example_service) example_archiver
           [(1, 0, 1); (2, 0, 1); (1, 0, 1); (5, 1, 1)] initial_world
           example_service_transport_level).
Defined.

(** ** More on the archive *)

Section Printable.

Lemma printable_text_app (s t : pystr) :
  printable_text s -> printable_text t -> printable_text (s ++ t).
Proof. intros Hs Ht. apply Forall_app. now split. Qed.

Lemma hex_digit_printable (k : N) :
  (k < 16)%N -> (32 <= hex_digit k <= 126)%N.
Proof. unfold hex_digit. destruct (k <? 10)%N eqn:H; lia. Qed.

Lemma hex4_printable (n : N) : printable_text (hex4 n).
Proof.
  unfold hex4. repeat constructor; apply hex_digit_printable, mod16_lt.
Qed.

Lemma escape_char_printable (c : N) : printable_text (escape_char c).
Proof.
  unfold escape_char.
  destruct (c =? 34)%N; [repeat constructor; lia|].
  destruct (c =? 92)%N; [repeat constructor; lia|].
  destruct ((32 <=? c) && (c <=? 126))%N eqn:Hprint.
  { apply andb_true_iff in Hprint as [H1 H2].
    apply N.leb_le in H1, H2. repeat constructor; lia. }
  destruct (c =? 8)%N; [repeat constructor; lia|].
  destruct (c =? 12)%N; [repeat constructor; lia|].
  destruct (c =? 10)%N; [repeat constructor; lia|].
  destruct (c =? 13)%N; [repeat constructor; lia|].
  destruct (c =? 9)%N; [repeat constructor; lia|].
  destruct (c <? 65536)%N.
  - do 2 (constructor; [lia|]). apply hex4_printable.
  - apply printable_text_app;
      (do 2 (constructor; [lia|]); apply hex4_printable).
Qed.

Lemma encode_basestring_ascii_printable (s : pystr) :
  printable_text (encode_basestring_ascii s).
Proof.
  unfold encode_basestring_ascii.
  apply printable_text_app; [repeat constructor; lia|].
  apply printable_text_app; [|repeat constructor; lia].
  induction s as [|c s IH]; cbn [flat_map]; [constructor|].
  apply printable_text_app; [apply escape_char_printable|exact IH].
Qed.

Lemma json_dumps_printable v : printable_text (json_dumps v).
Proof.
  induction v as [s|members IH] using json_induction.
  - apply encode_basestring_ascii_printable.
  - rewrite json_dumps_object.
    apply printable_text_app; [repeat constructor; lia|].
    apply printable_text_app; [|repeat constructor; lia].
    generalize true.
    induction members as [|[k v] members IHm]; intros first;
      cbn [dumps_items]; [constructor|].
    apply Forall_cons_iff in IH as [Hv IH]. cbn [snd] in Hv.
    apply printable_text_app; [destruct first; repeat constructor; lia|].
    apply printable_text_app; [apply encode_basestring_ascii_printable|].
    apply printable_text_app; [repeat constructor; lia|].
    apply printable_text_app; [exact Hv|now apply IHm].
Qed.

End Printable.

(** X9. Whatever the response bodies and the timestamp contain (quotes,
    line breaks, control characters, characters outside ASCII), the text
    that [compress_and_save_archive] hands to the codec consists of
    printable ASCII characters only, from the space to the tilde: it is one
    line, and its encoding to bytes cannot fail. *)
Theorem archive_text_is_printable_ascii
    (env : environ) (self : LeaderboardArchiver) (all_data : pydict pystr)
    (w : world) :
  first_fault env = None ->
  fs (snd (compress_and_save_archive self all_data env w))
    !! archive_path_of env
  = Some (lzma_compress env (archive_text env all_data)) /\
  printable_text (archive_text env all_data) /\
  encode_utf8 (archive_text env all_data) = Ok (archive_text env all_data).
Proof.
  intros Hf. split; [|split].
  - rewrite (compress_and_save_archive_ok env self all_data w Hf).
    cbn [snd fs]. apply lookup_insert_eq.
  - apply json_dumps_printable.
  - apply archive_text_encoded.
Qed.

Lemma archive_text_is_printable_ascii_witness :
  printable_text
    (archive_text environ_in_order
       [(lit "1_0_1", [34; 10; 233; 0; 128512; 55357]%N)]).
Proof.
  exact (proj1 (proj2 (archive_text_is_printable_ascii environ_in_order
                         example_archiver
                         [(lit "1_0_1", [34; 10; 233; 0; 128512; 55357]%N)]
                         initial_world eq_refl))).
Defined.

Lemma archive_path_of_date (env1 env2 : environ) :
  os_sep env1 = os_sep env2 ->
  archive_path_of env1 = archive_path_of env2 ->
  now_strftime_Ymd env1 = now_strftime_Ymd env2.
Proof.
  unfold archive_path_of. intros -> H.
  apply app_inv_head in H. apply app_inv_head in H.
  apply app_inv_head in H. now apply app_inv_tail in H.
Qed.

(** X8. One archive per day. When [compress_and_save_archive] runs twice
    without a fault, on the same platform, the archive of the second run is
    at its path afterwards; if both runs are on the same date the two paths
    are the same, so the second archive has replaced the first; if the dates
    differ, the archive of the first run is still at its own path. *)
Theorem one_archive_per_day
    (env1 env2 : environ) (self1 self2 : LeaderboardArchiver)
    (data1 data2 : pydict pystr) (w : world) :
  first_fault env1 = None ->
  first_fault env2 = None ->
  os_sep env1 = os_sep env2 ->
  fs (snd (compress_and_save_archive self2 data2 env2
             (snd (compress_and_save_archive self1 data1 env1 w))))
    !! archive_path_of env2
  = Some (lzma_compress env2 (archive_text env2 data2)) /\
  (now_strftime_Ymd env1 = now_strftime_Ymd env2 ->
   archive_path_of env1 = archive_path_of env2) /\
  (now_strftime_Ymd env1 <> now_strftime_Ymd env2 ->
   fs (snd (compress_and_save_archive self2 data2 env2
              (snd (compress_and_save_archive self1 data1 env1 w))))
     !! archive_path_of env1
   = Some (lzma_compress env1 (archive_text env1 data1))).
Proof.
  intros Hf1 Hf2 Hsep.
  rewrite (compress_and_save_archive_ok env1 self1 data1 w Hf1). cbn [snd].
  rewrite (compress_and_save_archive_ok env2 self2 data2 _ Hf2).
  cbn [snd fs]. split; [apply lookup_insert_eq|]. split.
  - intros Hdate. unfold archive_path_of. now rewrite Hsep, Hdate.
  - intros Hdate. rewrite lookup_insert_ne.
    + apply lookup_insert_eq.
    + intros Hpath. apply Hdate. symmetry.
      now apply archive_path_of_date.
Qed.

Lemma one_archive_per_day_witness :
  fs (snd (compress_and_save_archive example_archiver
             [(lit "1_0_1", lit "[2]")] environ_next_day
             (snd (compress_and_save_archive example_archiver
                     [(lit "1_0_1", lit "[1]")] environ_in_order
                     initial_world))))
    !! archive_path_of environ_in_order
  = Some (lzma_compress environ_in_order
            (archive_text environ_in_order [(lit "1_0_1", lit "[1]")])).
Proof.
  apply (one_archive_per_day environ_in_order environ_next_day
           example_archiver example_archiver
           [(lit "1_0_1", lit "[1]")] [(lit "1_0_1", lit "[2]")]
           initial_world eq_refl eq_refl eq_refl).
  discriminate.
Defined.

(** ** From the requests to the archive read back *)

Section EndToEnd.

Variable env : environ.
Variable self : LeaderboardArchiver.

(** What [get_scores] returns is one of the two dictionaries. *)
Lemma fetched_shape d r :
  fetched env self d r ->
  (exists body, r = Success d body) \/ (exists reason, r = Failure d reason).
Proof.
  intros H. specialize (H initial_world).
  rewrite get_scores_run in H. cbn [fst] in H.
  unfold get_scores_outcome in H.
  destruct (post env _) as [resp|e].
  - destruct (status resp =? 200).
    + destruct (text resp) as [body|e].
      * injection H as <-. eauto.
      * destruct (is_Exception e); [|discriminate H].
        injection H as <-. eauto.
    + destruct (statusText resp); injection H as <-; eauto.
  - destruct (is_Exception e); [|discriminate H].
    injection H as <-. eauto.
Qed.

(** Reading back a file that holds a compressed archive text. *)
Lemma read_archive_written all_data w :
  (forall data, lzma_decompress env (lzma_compress env data) = Some data) ->
  well_formed_text (now_isoformat env) ->
  well_formed_dict all_data ->
  fs w !! archive_path_of env
  = Some (lzma_compress env (archive_text env all_data)) ->
  (read_archive env w (archive_path_of env) ≫= data_field) = Some all_data.
Proof.
  intros Hcodec Hts Hd Hfile. unfold read_archive.
  rewrite Hfile. cbn [mbind option_bind]. rewrite Hcodec.
  cbn [mbind option_bind]. unfold archive_text.
  rewrite decode_utf8_ascii by apply json_dumps_ascii.
  cbn [mbind option_bind].
  rewrite json_loads_dumps by now apply archive_document_well_formed.
  cbn [mbind option_bind]. apply data_field_archive_document.
Qed.

End EndToEnd.

(** X6. A whole run, read back. Let both variables be set, the transport
    fail at transport level only, the file system and the codec not fail,
    the codec decompress what it compressed, every task complete once, the
    timestamp and the bodies received be text, and at least one request
    succeed. Then [main] returns, and the "data" field of the archive it
    wrote, read back, holds exactly the successful results: one item per
    success, in the order of completion, the body under the key of the
    descriptor. The failed requests leave no trace in it and do not keep
    the archive from being written. *)
Theorem main_archive_holds_the_successes (env : environ) (w : world) :
  configured env ->
  transport_level_failures env ->
  first_fault env = None ->
  (forall data, lzma_decompress env (lzma_compress env data) = Some data) ->
  well_formed_text (now_isoformat env) ->
  List.NoDup (as_completed env combinations) ->
  (forall d body,
     fetched env (configured_archiver env) d (Success d body) ->
     well_formed_text body) ->
  (exists d body,
     In d (as_completed env combinations) /\
     fetched env (configured_archiver env) d (Success d body)) ->
  exists results w',
    Forall2 (fetched env (configured_archiver env))
      (as_completed env combinations) results /\
    main env w = (Ok tt, w') /\
    (read_archive env w' (archive_path_of env) ≫= data_field)
    = Some (map item_of (List.filter is_success results)).
Proof.
  intros Hc Ht Hf Hcodec Hts Hnd Hbodies (d0 & body0 & Hin0 & Hfetch0).
  set (self := configured_archiver env) in *.
  destruct (as_completed_loop_trace env self (as_completed env combinations)
              ([], 0, 0) (logged w [starting_line]) Ht)
    as (results & Hres & Hrun).
  pose proof (fetched_descriptors env self _ _ Hres) as Hdesc.
  assert (Hnd' : List.NoDup (map result_descriptor results))
    by now rewrite Hdesc.
  fold (aggregate results) in Hrun.
  rewrite (aggregate_distinct results Hnd') in Hrun.
  assert (Hpos : (Z.of_nat (length (List.filter is_success results)) >? 0)
                 = true).
  { destruct (Forall2_left_inv _ _ _ Hres d0 Hin0) as (r & Hr & Hfetch).
    rewrite (fetched_functional env self d0 _ _ Hfetch Hfetch0) in Hr.
    assert (Hs : In (Success d0 body0) (List.filter is_success results)).
    { apply filter_In. split; [exact Hr|].
      destruct d0 as [[dt ct] pt]. reflexivity. }
    destruct (List.filter is_success results); [destruct Hs|].
    cbn [length]. apply Z.gtb_lt. lia. }
  assert (Hwf : well_formed_dict (map item_of (List.filter is_success results))).
  { pose proof (aggregated_document_well_formed results Hnd') as Hagg.
    unfold aggregated_document in Hagg.
    rewrite (aggregate_distinct results Hnd') in Hagg. cbn [fst] in Hagg.
    apply Hagg. apply List.Forall_forall. intros r Hr body Hdata.
    destruct (Forall2_right_inv _ _ _ Hres r Hr) as (d & _ & Hfetch).
    destruct (fetched_shape env self d r Hfetch) as [[b ->]|[reason ->]];
      destruct d as [[dt ct] pt]; cbn in Hdata; [|discriminate Hdata].
    injection Hdata as ->. exact (Hbodies (dt, ct, pt) body Hfetch). }
  exists results. eexists. split; [exact Hres|]. split.
  - rewrite main_cases. unfold configured in Hc. rewrite Hc.
    fold self. rewrite archive_all_combinations_cases, Hrun, Hpos.
    rewrite (compress_and_save_archive_ok env self _ _ Hf). reflexivity.
  - apply read_archive_written; try assumption.
    cbn [logged fs]. apply lookup_insert_eq.
Qed.

Lemma example_service_bodies d body :
  fetched (environ_with_post example_service)
    (configured_archiver (environ_with_post example_service)) d
    (Success d body) ->
  well_formed_text body.
Proof.
  intros H. specialize (H initial_world). rewrite get_scores_run in H.
  cbn [fst] in H. destruct d as [[dt ct] pt].
  unfold get_scores_outcome, example_service in H. cbn in H.
  destruct (dt =? 1); [|destruct (dt =? 2)]; cbn in H;
    try discriminate H.
  injection H as <-. exact (lit_well_formed "[]").
Qed.

Lemma main_archive_holds_the_successes_witness :
  exists results w',
    Forall2 (fetched (environ_with_post example_service)
               (configured_archiver (environ_with_post example_service)))
      (as_completed (environ_with_post example_service) combinations)
      results /\
    main (environ_with_post example_service) initial_world = (Ok tt, w') /\
    (read_archive (environ_with_post example_service) w'
       (archive_path_of (environ_with_post example_service)) ≫= data_field)
    = Some (map item_of (List.filter is_success results)).
Proof.
  apply (main_archive_holds_the_successes
           (environ_with_post example_service) initial_world).
  - reflexivity.
  - exact example_service_transport_level.
  - reflexivity.
  - intros data. reflexivity.
  - apply lit_well_formed.
  - exact combinations_NoDup.
  - exact example_service_bodies.
  - exists (1, 0, 1), (lit "[]"). split.
    + apply In_combinations. cbn. lia.
    + intros w. now rewrite get_scores_run.
Defined.

(** ** The script *)

Lemma git_update_run senv sh :
  chdir_fault senv = None ->
  (forall dir args, exists code, subprocess_outcome senv dir args = Ok code) ->
  git_update senv sh
  = (Ok tt,
     Shell repository_directory
       (commands sh ++ [(repository_directory, git_add);
                        (repository_directory, git_commit);
                        (repository_directory, git_push)])).
Proof.
  intros Hcd Hrun.
  unfold git_update, shell_bind, os_chdir, subprocess_run. rewrite Hcd.
  cbn [cwd commands].
  destruct (Hrun repository_directory git_add) as [c1 ->].
  destruct (Hrun repository_directory git_commit) as [c2 ->].
  destruct (Hrun repository_directory git_push) as [c3 ->].
  now rewrite <- !app_assoc.
Qed.

(** X10. After [main], the script commits and pushes, whatever [main] did.
    With failures of the transport and of the file system that derive from
    [Exception], [main] returns in every configuration, also when a variable
    is missing, no request succeeded or the archive could not be written;
    then [git_update] changes to the repository directory and runs
    [git add .], [git commit -m update] and [git push -u origin main] there,
    in that order, whatever the return codes of the commands. When
    [os.chdir] raises, no command is run. *)
Theorem script_commits_and_pushes_after_any_run
    (env : environ) (senv : shell_environ) (w : world) (sh : shell) :
  transport_level_failures env ->
  io_level_failures env ->
  (forall dir args, exists code, subprocess_outcome senv dir args = Ok code) ->
  (chdir_fault senv = None ->
   exists w',
     script env senv w sh
     = (Ok tt,
        (w', Shell repository_directory
               (commands sh ++ [(repository_directory, git_add);
                                (repository_directory, git_commit);
                                (repository_directory, git_push)])))) /\
  (forall e, chdir_fault senv = Some e ->
   exists w', script env senv w sh = (Raise e, (w', sh))).
Proof.
  intros Ht Hio Hrun.
  assert (Hmain : exists w', main env w = (Ok tt, w')).
  { rewrite main_cases.
    destruct (truthy (getenv env (lit "USER_TOKEN"))
              && truthy (getenv env (lit "DB_LINK"))); [|eauto].
    destruct (archive_all_combinations_total env (configured_archiver env) w
                Ht Hio) as (results & tail & _ & ->). eauto. }
  destruct Hmain as [w' Hmain]. unfold script. rewrite Hmain. split.
  - intros Hcd. rewrite (git_update_run senv sh Hcd Hrun). eauto.
  - intros e Hcd. unfold git_update, shell_bind, os_chdir. rewrite Hcd. eauto.
Qed.

Lemma script_commits_and_pushes_after_any_run_witness :
  exists w',
    script environ_without_token example_shell_environ initial_world
      initial_shell
    = (Ok tt,
       (w', Shell repository_directory
              [(repository_directory, git_add);
               (repository_directory, git_commit);
               (repository_directory, git_push)])).
Proof.
  apply (script_commits_and_pushes_after_any_run environ_without_token
           example_shell_environ initial_world initial_shell).
  - intros req. split.
    + intros e [=].
    + intros resp [= <-] e [=].
  - intros e [=].
  - intros dir args. cbn. destruct (decide (args = git_commit)); eauto.
  - reflexivity.
Defined.

(** ** Exceptions that are not failures *)

Section Interruption.

Variable env : environ.
Variable self : LeaderboardArchiver.

(** What [get_scores] lets through does not derive from [Exception]. *)
Lemma get_scores_outcome_raise d e :
  get_scores_outcome env self d = Raise e -> is_Exception e = false.
Proof.
  unfold get_scores_outcome.
  destruct (post env _) as [resp|e0].
  - destruct (status resp =? 200).
    + destruct (text resp) as [body|e0]; [discriminate|].
      destruct (is_Exception e0) eqn:He; [discriminate|]. now intros [= <-].
    + destruct (statusText resp); discriminate.
  - destruct (is_Exception e0) eqn:He; [discriminate|]. now intros [= <-].
Qed.

(** A loop over tasks one of which raises ends with the exception of the
    first that does. *)
Lemma as_completed_loop_raise order st w d e :
  In d order ->
  get_scores_outcome env self d = Raise e ->
  exists e' w',
    as_completed_loop self order st env w = (Raise e', w') /\
    is_Exception e' = false.
Proof.
  intros Hin Hd. revert st w.
  induction order as [|d0 order IH]; intros st w; [destruct Hin|].
  cbn [as_completed_loop]. unfold bind. rewrite get_scores_run.
  destruct (get_scores_outcome env self d0) as [r|e0] eqn:H0.
  - rewrite consume_run. apply IH.
    destruct Hin as [->|Hin]; [congruence|exact Hin].
  - do 2 eexists. split; [reflexivity|].
    exact (get_scores_outcome_raise d0 e0 H0).
Qed.

End Interruption.

(** X11. An exception of the transport that does not derive from
    [Exception] (an interrupt, a cancellation) is no failed request. With
    both variables set, when sending the request of one of the tasks raises
    such an exception, [main] raises an exception of that kind instead of
    returning: no file is written and no directory created, and the script
    ends there, without running a single git command. *)
Theorem interruption_stops_the_script
    (env : environ) (senv : shell_environ) (w : world) (sh : shell)
    (d : Z * Z * Z) (e : exn) :
  configured env ->
  In d (as_completed env combinations) ->
  post env (request_of (configured_archiver env) d) = Raise e ->
  is_Exception e = false ->
  exists e' w',
    main env w = (Raise e', w') /\
    is_Exception e' = false /\
    fs w' = fs w /\
    dirs w' = dirs w /\
    script env senv w sh = (Raise e', (w', sh)).
Proof.
  intros Hc Hin Hpost He.
  set (self := configured_archiver env) in *.
  assert (Hd : get_scores_outcome env self d = Raise e).
  { unfold get_scores_outcome. now rewrite Hpost, He. }
  destruct (as_completed_loop_raise env self _ ([], 0, 0)
              (logged w [starting_line]) d e Hin Hd)
    as (e' & w' & Hloop & He').
  destruct (as_completed_loop_files env self (as_completed env combinations)
              ([], 0, 0) (logged w [starting_line])) as [Hfs Hdirs].
  rewrite Hloop in Hfs, Hdirs. cbn [snd logged fs dirs] in Hfs, Hdirs.
  assert (Hv : is_ValueError e' = false).
  { unfold is_ValueError. unfold is_Exception in He'.
    destruct (exn_class_of e'); [discriminate He'|reflexivity|reflexivity]. }
  assert (Hmain : main env w = (Raise e', w')).
  { rewrite main_cases. unfold configured in Hc. rewrite Hc.
    fold self. rewrite archive_all_combinations_cases, Hloop.
    now rewrite Hv, He'. }
  exists e', w'. split; [exact Hmain|]. split; [exact He'|].
  split; [exact Hfs|]. split; [exact Hdirs|].
  unfold script. now rewrite Hmain.
Qed.

Lemma interruption_stops_the_script_witness :
  exists e' w',
    main environ_interrupted initial_world = (Raise e', w') /\
    is_Exception e' = false /\
    fs w' = fs initial_world /\
    dirs w' = dirs initial_world /\
    script environ_interrupted example_shell_environ initial_world
      initial_shell
    = (Raise e', (w', initial_shell)).
Proof.
  apply (interruption_stops_the_script environ_interrupted
           example_shell_environ initial_world initial_shell
           (3, 0, 1) keyboard_interrupt).
  - reflexivity.
  - apply In_combinations. cbn. lia.
  - reflexivity.
  - reflexivity.
Defined.
